(** * Monkey Island bitmap font editor: the canvas model

    A shallow embedding of [PixelEditorCanvas] and of the two
    [MonkeyIslandFontEditor] slots that wrap it
    (src/monkey_island_font_editor.py), followed by the properties of the
    pixel buffer, the snapshot history, the clipboard and the palette
    codec.

    Python integers are [Z]; [//] is [Z.div] (both round towards minus
    infinity).  Python lists are Rocq lists in the same order, so
    [append] adds at the right end, [pop()] removes the last element and
    [pop(0)] the first.  An attribute that may hold [None] is an [option].
    Methods that can raise return a [result]. *)

From Stdlib Require Import ZArith Lia String.
From stdpp Require Import base option list list_numbers strings.

Local Open Scope string_scope.
Local Open Scope Z_scope.
Local Open Scope list_scope.

(** ** Python control flow *)

(** [range(a, b)] *)
Definition range (a b : Z) : list Z := seqZ a (b - a).

Inductive exn := TypeError | AttributeError | ZeroDivisionError.

Inductive result (A : Type) :=
  | Ok (a : A)
  | Raise (e : exn).
Arguments Ok {A} a.
Arguments Raise {A} e.

#[global] Instance result_ret : MRet result := λ A a, Ok a.

#[global] Instance result_bind : MBind result := λ A B k r,
  match r with
  | Ok a => k a
  | Raise e => Raise e
  end.

(** A [for] loop whose body may raise. *)
Fixpoint for_each {S A} (l : list A) (body : S → A → result S) (s : S)
  : result S :=
  match l with
  | [] => Ok s
  | a :: l' => s' ← body s a; for_each l' body s'
  end.

(** ** QImage, format Indexed8

    The buffer is kept row-major, as Qt does.  Out of range
    [pixelIndex] answers Qt's sentinel and out of range [setPixel] leaves
    the image alone; the editor guards every call, so neither branch is
    ever taken.  The colour table is not part of the record: [setPixel]
    is the write of an index that Qt accepts, and [accepted] below says
    which indices those are. *)

Record QImage := mkQImage {
  img_width : Z;
  img_height : Z;
  img_bits : list Z
}.

Definition valid (img : QImage) (x y : Z) : bool :=
  bool_decide (0 ≤ x < img_width img ∧ 0 ≤ y < img_height img).

Definition offset (img : QImage) (x y : Z) : nat :=
  Z.to_nat (y * img_width img + x).

Definition pixelIndex (img : QImage) (x y : Z) : Z :=
  if valid img x y then img_bits img !!! offset img x y else -12345.

Definition setPixel (img : QImage) (x y c : Z) : QImage :=
  if valid img x y
  then mkQImage (img_width img) (img_height img)
                (<[offset img x y := c]> (img_bits img))
  else img.

(** [QImage(width, height, Format_Indexed8)].  Qt leaves the fresh
    buffer uninitialised; it is taken to be zeroed here, and what is
    stated about loaded pixels is stated for a load that overwrites all
    of it.  For an empty size Qt builds the null image, whose width and
    height are 0. *)
Definition new_QImage (w h : Z) : QImage :=
  if bool_decide (0 < w ∧ 0 < h)
  then mkQImage w h (replicate (Z.to_nat (w * h)) 0)
  else mkQImage 0 0 [].

(** What PIL hands to [load_image]: the mode of the opened file, the
    result of [getpalette()], and size and [tobytes()] of the indexed
    image, that is after [convert('P')] when the mode was not ['P']. *)
Inductive PilMode := ModeP | ModeOther.

Record PilImage := mkPilImage {
  pil_mode : PilMode;
  pil_palette : list Z;
  pil_size : Z * Z;
  pil_bytes : list Z
}.

(** ** The canvas *)

(** An entry of either history stack:
    [(pixel_data, description, width, height)]. *)
Definition HistoryEntry : Type := list Z * string * Z * Z.

Record Canvas := mkCanvas {
  image : option QImage;
  original_palette : option (list Z);
  zoom_level : Z;
  current_color_index : Z;
  drawing : bool;
  char_height : Z;
  hover_y : Z;
  selecting : bool;
  selection_start : option (Z * Z);
  selection_end : option (Z * Z);
  clipboard_data : option (list Z);
  clipboard_size : option (Z * Z);
  paste_mode : bool;
  paste_position : option (Z * Z);
  paste_dragging : bool;
  edit_mode : string;
  undo_stack : list HistoryEntry;
  redo_stack : list HistoryEntry;
  max_history : Z
}.

Definition with_image (v : option QImage) (s : Canvas) : Canvas :=
  {| image := v; original_palette := original_palette s;
     zoom_level := zoom_level s;
     current_color_index := current_color_index s; drawing := drawing s;
     char_height := char_height s; hover_y := hover_y s;
     selecting := selecting s; selection_start := selection_start s;
     selection_end := selection_end s; clipboard_data := clipboard_data s;
     clipboard_size := clipboard_size s; paste_mode := paste_mode s;
     paste_position := paste_position s; paste_dragging := paste_dragging s;
     edit_mode := edit_mode s; undo_stack := undo_stack s;
     redo_stack := redo_stack s; max_history := max_history s |}.

Definition with_original_palette (v : option (list Z)) (s : Canvas) : Canvas :=
  {| image := image s; original_palette := v; zoom_level := zoom_level s;
     current_color_index := current_color_index s; drawing := drawing s;
     char_height := char_height s; hover_y := hover_y s;
     selecting := selecting s; selection_start := selection_start s;
     selection_end := selection_end s; clipboard_data := clipboard_data s;
     clipboard_size := clipboard_size s; paste_mode := paste_mode s;
     paste_position := paste_position s; paste_dragging := paste_dragging s;
     edit_mode := edit_mode s; undo_stack := undo_stack s;
     redo_stack := redo_stack s; max_history := max_history s |}.

Definition with_zoom_level (v : Z) (s : Canvas) : Canvas :=
  {| image := image s; original_palette := original_palette s;
     zoom_level := v; current_color_index := current_color_index s;
     drawing := drawing s; char_height := char_height s;
     hover_y := hover_y s; selecting := selecting s;
     selection_start := selection_start s; selection_end := selection_end s;
     clipboard_data := clipboard_data s; clipboard_size := clipboard_size s;
     paste_mode := paste_mode s; paste_position := paste_position s;
     paste_dragging := paste_dragging s; edit_mode := edit_mode s;
     undo_stack := undo_stack s; redo_stack := redo_stack s;
     max_history := max_history s |}.

Definition with_current_color_index (v : Z) (s : Canvas) : Canvas :=
  {| image := image s; original_palette := original_palette s;
     zoom_level := zoom_level s; current_color_index := v;
     drawing := drawing s; char_height := char_height s;
     hover_y := hover_y s; selecting := selecting s;
     selection_start := selection_start s; selection_end := selection_end s;
     clipboard_data := clipboard_data s; clipboard_size := clipboard_size s;
     paste_mode := paste_mode s; paste_position := paste_position s;
     paste_dragging := paste_dragging s; edit_mode := edit_mode s;
     undo_stack := undo_stack s; redo_stack := redo_stack s;
     max_history := max_history s |}.

Definition with_drawing (v : bool) (s : Canvas) : Canvas :=
  {| image := image s; original_palette := original_palette s;
     zoom_level := zoom_level s;
     current_color_index := current_color_index s; drawing := v;
     char_height := char_height s; hover_y := hover_y s;
     selecting := selecting s; selection_start := selection_start s;
     selection_end := selection_end s; clipboard_data := clipboard_data s;
     clipboard_size := clipboard_size s; paste_mode := paste_mode s;
     paste_position := paste_position s; paste_dragging := paste_dragging s;
     edit_mode := edit_mode s; undo_stack := undo_stack s;
     redo_stack := redo_stack s; max_history := max_history s |}.

Definition with_char_height (v : Z) (s : Canvas) : Canvas :=
  {| image := image s; original_palette := original_palette s;
     zoom_level := zoom_level s;
     current_color_index := current_color_index s; drawing := drawing s;
     char_height := v; hover_y := hover_y s; selecting := selecting s;
     selection_start := selection_start s; selection_end := selection_end s;
     clipboard_data := clipboard_data s; clipboard_size := clipboard_size s;
     paste_mode := paste_mode s; paste_position := paste_position s;
     paste_dragging := paste_dragging s; edit_mode := edit_mode s;
     undo_stack := undo_stack s; redo_stack := redo_stack s;
     max_history := max_history s |}.

Definition with_hover_y (v : Z) (s : Canvas) : Canvas :=
  {| image := image s; original_palette := original_palette s;
     zoom_level := zoom_level s;
     current_color_index := current_color_index s; drawing := drawing s;
     char_height := char_height s; hover_y := v; selecting := selecting s;
     selection_start := selection_start s; selection_end := selection_end s;
     clipboard_data := clipboard_data s; clipboard_size := clipboard_size s;
     paste_mode := paste_mode s; paste_position := paste_position s;
     paste_dragging := paste_dragging s; edit_mode := edit_mode s;
     undo_stack := undo_stack s; redo_stack := redo_stack s;
     max_history := max_history s |}.

Definition with_selecting (v : bool) (s : Canvas) : Canvas :=
  {| image := image s; original_palette := original_palette s;
     zoom_level := zoom_level s;
     current_color_index := current_color_index s; drawing := drawing s;
     char_height := char_height s; hover_y := hover_y s; selecting := v;
     selection_start := selection_start s; selection_end := selection_end s;
     clipboard_data := clipboard_data s; clipboard_size := clipboard_size s;
     paste_mode := paste_mode s; paste_position := paste_position s;
     paste_dragging := paste_dragging s; edit_mode := edit_mode s;
     undo_stack := undo_stack s; redo_stack := redo_stack s;
     max_history := max_history s |}.

Definition with_selection_start (v : option (Z * Z)) (s : Canvas) : Canvas :=
  {| image := image s; original_palette := original_palette s;
     zoom_level := zoom_level s;
     current_color_index := current_color_index s; drawing := drawing s;
     char_height := char_height s; hover_y := hover_y s;
     selecting := selecting s; selection_start := v;
     selection_end := selection_end s; clipboard_data := clipboard_data s;
     clipboard_size := clipboard_size s; paste_mode := paste_mode s;
     paste_position := paste_position s; paste_dragging := paste_dragging s;
     edit_mode := edit_mode s; undo_stack := undo_stack s;
     redo_stack := redo_stack s; max_history := max_history s |}.

Definition with_selection_end (v : option (Z * Z)) (s : Canvas) : Canvas :=
  {| image := image s; original_palette := original_palette s;
     zoom_level := zoom_level s;
     current_color_index := current_color_index s; drawing := drawing s;
     char_height := char_height s; hover_y := hover_y s;
     selecting := selecting s; selection_start := selection_start s;
     selection_end := v; clipboard_data := clipboard_data s;
     clipboard_size := clipboard_size s; paste_mode := paste_mode s;
     paste_position := paste_position s; paste_dragging := paste_dragging s;
     edit_mode := edit_mode s; undo_stack := undo_stack s;
     redo_stack := redo_stack s; max_history := max_history s |}.

Definition with_clipboard_data (v : option (list Z)) (s : Canvas) : Canvas :=
  {| image := image s; original_palette := original_palette s;
     zoom_level := zoom_level s;
     current_color_index := current_color_index s; drawing := drawing s;
     char_height := char_height s; hover_y := hover_y s;
     selecting := selecting s; selection_start := selection_start s;
     selection_end := selection_end s; clipboard_data := v;
     clipboard_size := clipboard_size s; paste_mode := paste_mode s;
     paste_position := paste_position s; paste_dragging := paste_dragging s;
     edit_mode := edit_mode s; undo_stack := undo_stack s;
     redo_stack := redo_stack s; max_history := max_history s |}.

Definition with_clipboard_size (v : option (Z * Z)) (s : Canvas) : Canvas :=
  {| image := image s; original_palette := original_palette s;
     zoom_level := zoom_level s;
     current_color_index := current_color_index s; drawing := drawing s;
     char_height := char_height s; hover_y := hover_y s;
     selecting := selecting s; selection_start := selection_start s;
     selection_end := selection_end s; clipboard_data := clipboard_data s;
     clipboard_size := v; paste_mode := paste_mode s;
     paste_position := paste_position s; paste_dragging := paste_dragging s;
     edit_mode := edit_mode s; undo_stack := undo_stack s;
     redo_stack := redo_stack s; max_history := max_history s |}.

Definition with_paste_mode (v : bool) (s : Canvas) : Canvas :=
  {| image := image s; original_palette := original_palette s;
     zoom_level := zoom_level s;
     current_color_index := current_color_index s; drawing := drawing s;
     char_height := char_height s; hover_y := hover_y s;
     selecting := selecting s; selection_start := selection_start s;
     selection_end := selection_end s; clipboard_data := clipboard_data s;
     clipboard_size := clipboard_size s; paste_mode := v;
     paste_position := paste_position s; paste_dragging := paste_dragging s;
     edit_mode := edit_mode s; undo_stack := undo_stack s;
     redo_stack := redo_stack s; max_history := max_history s |}.

Definition with_paste_position (v : option (Z * Z)) (s : Canvas) : Canvas :=
  {| image := image s; original_palette := original_palette s;
     zoom_level := zoom_level s;
     current_color_index := current_color_index s; drawing := drawing s;
     char_height := char_height s; hover_y := hover_y s;
     selecting := selecting s; selection_start := selection_start s;
     selection_end := selection_end s; clipboard_data := clipboard_data s;
     clipboard_size := clipboard_size s; paste_mode := paste_mode s;
     paste_position := v; paste_dragging := paste_dragging s;
     edit_mode := edit_mode s; undo_stack := undo_stack s;
     redo_stack := redo_stack s; max_history := max_history s |}.

Definition with_paste_dragging (v : bool) (s : Canvas) : Canvas :=
  {| image := image s; original_palette := original_palette s;
     zoom_level := zoom_level s;
     current_color_index := current_color_index s; drawing := drawing s;
     char_height := char_height s; hover_y := hover_y s;
     selecting := selecting s; selection_start := selection_start s;
     selection_end := selection_end s; clipboard_data := clipboard_data s;
     clipboard_size := clipboard_size s; paste_mode := paste_mode s;
     paste_position := paste_position s; paste_dragging := v;
     edit_mode := edit_mode s; undo_stack := undo_stack s;
     redo_stack := redo_stack s; max_history := max_history s |}.

Definition with_edit_mode (v : string) (s : Canvas) : Canvas :=
  {| image := image s; original_palette := original_palette s;
     zoom_level := zoom_level s;
     current_color_index := current_color_index s; drawing := drawing s;
     char_height := char_height s; hover_y := hover_y s;
     selecting := selecting s; selection_start := selection_start s;
     selection_end := selection_end s; clipboard_data := clipboard_data s;
     clipboard_size := clipboard_size s; paste_mode := paste_mode s;
     paste_position := paste_position s; paste_dragging := paste_dragging s;
     edit_mode := v; undo_stack := undo_stack s; redo_stack := redo_stack s;
     max_history := max_history s |}.

Definition with_undo_stack (v : list HistoryEntry) (s : Canvas) : Canvas :=
  {| image := image s; original_palette := original_palette s;
     zoom_level := zoom_level s;
     current_color_index := current_color_index s; drawing := drawing s;
     char_height := char_height s; hover_y := hover_y s;
     selecting := selecting s; selection_start := selection_start s;
     selection_end := selection_end s; clipboard_data := clipboard_data s;
     clipboard_size := clipboard_size s; paste_mode := paste_mode s;
     paste_position := paste_position s; paste_dragging := paste_dragging s;
     edit_mode := edit_mode s; undo_stack := v; redo_stack := redo_stack s;
     max_history := max_history s |}.

Definition with_redo_stack (v : list HistoryEntry) (s : Canvas) : Canvas :=
  {| image := image s; original_palette := original_palette s;
     zoom_level := zoom_level s;
     current_color_index := current_color_index s; drawing := drawing s;
     char_height := char_height s; hover_y := hover_y s;
     selecting := selecting s; selection_start := selection_start s;
     selection_end := selection_end s; clipboard_data := clipboard_data s;
     clipboard_size := clipboard_size s; paste_mode := paste_mode s;
     paste_position := paste_position s; paste_dragging := paste_dragging s;
     edit_mode := edit_mode s; undo_stack := undo_stack s; redo_stack := v;
     max_history := max_history s |}.

(** [__init__]; the fields that only drive painting (grid, index
    labels) are left out. *)
Definition init : Canvas :=
  {| image := None; original_palette := None; zoom_level := 20;
     current_color_index := 1; drawing := false; char_height := 8;
     hover_y := -1; selecting := false; selection_start := None;
     selection_end := None; clipboard_data := None;
     clipboard_size := None; paste_mode := false; paste_position := None;
     paste_dragging := false; edit_mode := "draw"; undo_stack := [];
     redo_stack := []; max_history := 50 |}.

(** Python truthiness of [list or None] *)
Definition truthy {A} (o : option (list A)) : bool :=
  match o with
  | Some (_ :: _) => true
  | _ => false
  end.

(** ** load_image *)

(** Lines 81-94: character height from the strip height. *)
Definition detect_char_height (height : Z) : Z :=
  if bool_decide (height = 2048) then 8
  else if bool_decide (height = 2259) then 9
  else if bool_decide (height = 3390) then 15
  else if bool_decide (height = 3584) then 14
  else
    let ch := height / 256 in
    if bool_decide (ch < 1) then 8 else ch.

(** Lines 108-113: copy the bytes into the image. *)
Definition copy_pixel_data (img : QImage) (width height : Z)
    (pixel_data : list Z) : QImage :=
  foldl (λ im y,
    foldl (λ im x,
      let idx := y * width + x in
      if bool_decide (idx < Z.of_nat (length pixel_data))
      then setPixel im x y (pixel_data !!! Z.to_nat idx)
      else im) im (range 0 width)) img (range 0 height).

(** The state after a load that completes.  [update_size()] (line 115)
    sizes the widget and is left out; it raises when the zoomed width or
    height does not fit 32 bits, and the lines after it are then not
    run. *)
Definition load_image (s : Canvas) (pil_image : PilImage) : Canvas :=
  let s :=
    match pil_mode pil_image with
    | ModeP => with_original_palette (Some (pil_palette pil_image)) s
    | ModeOther => s
    end in
  let '(width, height) := pil_size pil_image in
  let s := with_char_height (detect_char_height height) s in
  let img := new_QImage width height in
  let img := copy_pixel_data img width height (pil_bytes pil_image) in
  let s := with_image (Some img) s in
  let s := with_undo_stack [] s in
  with_redo_stack [] s.

(** ** Painting a pixel *)

Definition draw_pixel (s : Canvas) (pos : Z * Z) : result Canvas :=
  match image s with
  | None => Ok s
  | Some img =>
    if bool_decide (zoom_level s = 0) then Raise ZeroDivisionError
    else
      let x := pos.1 / zoom_level s in
      let y := pos.2 / zoom_level s in
      if bool_decide (0 ≤ x < img_width img ∧ 0 ≤ y < img_height img)
      then Ok (with_image
                 (Some (setPixel img x y (current_color_index s))) s)
      else Ok s
  end.

(** As for [load_image], the call of [update_size()] is left out. *)
Definition set_zoom (s : Canvas) (zoom : Z) : Canvas :=
  with_zoom_level zoom s.

Definition set_color (s : Canvas) (color_index : Z) : Canvas :=
  with_current_color_index color_index s.

Definition set_char_height (s : Canvas) (height : Z) : Canvas :=
  with_char_height height s.

(** ** Selection and clipboard *)

Definition copy_selection (s : Canvas) : Canvas * bool :=
  match image s, selection_start s, selection_end s with
  | Some img, Some start, Some end_ =>
    let x1 := Z.min start.1 end_.1 in
    let y1 := Z.min start.2 end_.2 in
    let x2 := Z.max start.1 end_.1 in
    let y2 := Z.max start.2 end_.2 in
    let width := x2 - x1 + 1 in
    let height := y2 - y1 + 1 in
    let data :=
      foldl (λ cd y,
        foldl (λ cd x,
          if bool_decide (0 ≤ x < img_width img ∧ 0 ≤ y < img_height img)
          then cd ++ [pixelIndex img x y]
          else cd ++ [0]) cd (range x1 (x2 + 1))) [] (range y1 (y2 + 1)) in
    let s := with_clipboard_data (Some data) s in
    let s := with_clipboard_size (Some (width, height)) s in
    (s, true)
  | _, _, _ => (s, false)
  end.

Definition clear_selection (s : Canvas) : Canvas :=
  with_selection_end None (with_selection_start None s).

Definition set_edit_mode (s : Canvas) (mode : string) : Canvas :=
  if bool_decide (mode = "draw" ∨ mode = "select") then
    let s := with_edit_mode mode s in
    if bool_decide (mode = "draw") then clear_selection s else s
  else s.

(** ** History *)

(** The loop that reads the whole buffer, shared by [save_state],
    [undo], [redo] and [save_image]. *)
Definition capture (img : QImage) : list Z :=
  foldl (λ pixel_data y,
    foldl (λ pixel_data x, pixel_data ++ [pixelIndex img x y])
      pixel_data (range 0 (img_width img))) [] (range 0 (img_height img)).

Definition save_state (s : Canvas) (description : string) : Canvas :=
  match image s with
  | None => s
  | Some img =>
    let width := img_width img in
    let height := img_height img in
    let pixel_data := capture img in
    let s := with_undo_stack
               (undo_stack s ++ [(pixel_data, description, width, height)])
               s in
    let s := if bool_decide
                  (Z.of_nat (length (undo_stack s)) > max_history s)
             then with_undo_stack (drop 1 (undo_stack s)) s
             else s in
    with_redo_stack [] s
  end.

(** [list.pop()]: the rest and the last element, [None] on []. *)
Definition pop {A} (l : list A) : option (list A * A) :=
  match reverse l with
  | [] => None
  | a :: r => Some (reverse r, a)
  end.

(** The loop that writes a snapshot back, shared by [undo] and [redo];
    [restore_cell] is one turn of the inner loop, with [idx] carried
    along. *)
Definition restore_cell (pixel_data : list Z) (y : Z) (st : QImage * Z)
    (x : Z) : QImage * Z :=
  let '(im, idx) := st in
  let im :=
    if bool_decide (idx < Z.of_nat (length pixel_data))
    then setPixel im x y (pixel_data !!! Z.to_nat idx)
    else im in
  (im, idx + 1).

Definition restore (img : QImage) (width height : Z) (pixel_data : list Z)
  : QImage :=
  fst (foldl (λ st y, foldl (restore_cell pixel_data y) st (range 0 width))
             (img, 0) (range 0 height)).

(** [undo]; the emptiness test of line 458 and the [pop()] of line 471
    are one match on [pop]. *)
Definition undo (s : Canvas) : Canvas * bool :=
  match image s with
  | None => (s, false)
  | Some img =>
    match pop (undo_stack s) with
    | None => (s, false)
    | Some (rest, (pixel_data, description, w, h)) =>
      let width := img_width img in
      let height := img_height img in
      let s := with_redo_stack
                 (redo_stack s ++ [(capture img, "Current", width, height)])
                 s in
      let s := with_undo_stack rest s in
      if bool_decide (w = width ∧ h = height)
      then (with_image (Some (restore img width height pixel_data)) s, true)
      else (s, false)
    end
  end.

Definition redo (s : Canvas) : Canvas * bool :=
  match image s with
  | None => (s, false)
  | Some img =>
    match pop (redo_stack s) with
    | None => (s, false)
    | Some (rest, (pixel_data, description, w, h)) =>
      let width := img_width img in
      let height := img_height img in
      let s := with_undo_stack
                 (undo_stack s ++ [(capture img, "Current", width, height)])
                 s in
      let s := with_redo_stack rest s in
      if bool_decide (w = width ∧ h = height)
      then (with_image (Some (restore img width height pixel_data)) s, true)
      else (s, false)
    end
  end.

Definition can_undo (s : Canvas) : bool :=
  bool_decide (Z.of_nat (length (undo_stack s)) > 0).

Definition can_redo (s : Canvas) : bool :=
  bool_decide (Z.of_nat (length (redo_stack s)) > 0).

(** ** Paste session *)

Definition start_paste_mode (s : Canvas) : Canvas * bool :=
  if negb (truthy (clipboard_data s))
     || negb (bool_decide (is_Some (clipboard_size s)))
  then (s, false)
  else
    let s := with_paste_mode true s in
    let s := with_paste_position (Some (0, 0)) s in
    (s, true).

(** One turn of the inner loop of [commit_paste].  The chained
    comparison reads [self.image] only once [0 <= target_x] holds. *)
Definition paste_cell (px py cw : Z) (data : list Z) (dy : Z)
    (s : Canvas) (dx : Z) : result Canvas :=
  let target_x := px + dx in
  let target_y := py + dy in
  if bool_decide (0 ≤ target_x) then
    match image s with
    | None => Raise AttributeError
    | Some img =>
      if bool_decide (target_x < img_width img
                      ∧ 0 ≤ target_y < img_height img
                      ∧ dy * cw + dx < Z.of_nat (length data))
      then
        let color_idx := data !!! Z.to_nat (dy * cw + dx) in
        Ok (with_image (Some (setPixel img target_x target_y color_idx)) s)
      else Ok s
    end
  else Ok s.

Definition commit_paste (s : Canvas) : result (Canvas * bool) :=
  match paste_mode s, clipboard_data s, paste_position s with
  | true, Some (d :: data), Some (px, py) =>
    let s := save_state s "Paste" in
    match clipboard_size s with
    | None => Raise TypeError
    | Some (cw, ch) =>
      s ← for_each (range 0 ch)
            (λ s dy,
               for_each (range 0 cw) (paste_cell px py cw (d :: data) dy) s)
            s;
      let s := with_paste_mode false s in
      let s := with_paste_position None s in
      Ok (s, true)
    end
  | _, _, _ => Ok (s, false)
  end.

Definition cancel_paste (s : Canvas) : Canvas :=
  with_paste_position None (with_paste_mode false s).

(** ** Mouse *)

Record QMouseEvent := mkQMouseEvent {
  ev_left : bool;
  ev_shift : bool;
  ev_pos : Z * Z
}.

Definition mousePressEvent (s : Canvas) (event : QMouseEvent)
  : result Canvas :=
  match image s with
  | None => Ok s
  | Some _ =>
    if ev_left event then
      if paste_mode s then
        if bool_decide (zoom_level s = 0) then Raise ZeroDivisionError
        else
          let x := (ev_pos event).1 / zoom_level s in
          let y := (ev_pos event).2 / zoom_level s in
          Ok (with_paste_dragging true (with_paste_position (Some (x, y)) s))
      else if bool_decide (edit_mode s = "select") || ev_shift event then
        if bool_decide (zoom_level s = 0) then Raise ZeroDivisionError
        else
          let x := (ev_pos event).1 / zoom_level s in
          let y := (ev_pos event).2 / zoom_level s in
          let s := with_selecting true s in
          let s := with_selection_start (Some (x, y)) s in
          Ok (with_selection_end (Some (x, y)) s)
      else if bool_decide (edit_mode s = "draw") then
        let s := save_state s "Draw" in
        let s := with_drawing true s in
        draw_pixel s (ev_pos event)
      else Ok s
    else Ok s
  end.

Definition mouseMoveEvent (s : Canvas) (event : QMouseEvent)
  : result Canvas :=
  match image s with
  | None => Ok s
  | Some _ =>
    if bool_decide (zoom_level s = 0) then Raise ZeroDivisionError
    else
      let s := with_hover_y ((ev_pos event).2 / zoom_level s) s in
      let x := (ev_pos event).1 / zoom_level s in
      let y := (ev_pos event).2 / zoom_level s in
      if selecting s then Ok (with_selection_end (Some (x, y)) s)
      else if paste_dragging s then Ok (with_paste_position (Some (x, y)) s)
      else if drawing s then draw_pixel s (ev_pos event)
      else Ok s
  end.

Definition mouseReleaseEvent (s : Canvas) (event : QMouseEvent) : Canvas :=
  if ev_left event then
    let s := with_drawing false s in
    let s := with_selecting false s in
    with_paste_dragging false s
  else s.

(** ** save_image

    The second component is the image handed to [pil_image.save]. *)
Definition save_image (s : Canvas) : bool * option PilImage :=
  match image s, original_palette s with
  | Some img, Some (p :: palette) =>
    let width := img_width img in
    let height := img_height img in
    (true, Some (mkPilImage ModeP (p :: palette) (width, height)
                            (capture img)))
  | _, _ => (false, None)
  end.

(** ** Character bands

    [jump_to_character] answers the index its signal carries, if it is
    emitted.  The chained comparison divides only once
    [0 <= char_index] holds. *)
Definition jump_to_character (s : Canvas) (char_index : Z)
  : result (option Z) :=
  match image s with
  | None => Ok None
  | Some img =>
    if bool_decide (0 ≤ char_index) then
      if bool_decide (char_height s = 0) then Raise ZeroDivisionError
      else if bool_decide (char_index < img_height img / char_height s)
           then Ok (Some char_index)
           else Ok None
    else Ok None
  end.

(** Lines 168-176 of [paintEvent]: for every character band its index,
    its first screen row [y_start], the row past its last [y_end], and
    whether the mouse hovers over it.  [show_char_indices] is set in
    [__init__] and never cleared. *)
Definition is_hovered (s : Canvas) (char_idx : Z) : bool :=
  bool_decide ((hover_y s >= char_idx * char_height s)%Z
               ∧ hover_y s < (char_idx + 1) * char_height s).

Definition char_bands (s : Canvas) : list (Z * Z * Z * bool) :=
  match image s with
  | None => []
  | Some img =>
    if bool_decide (char_height s > 0) then
      let num_chars := img_height img / char_height s in
      (λ char_idx,
         let y_start := char_idx * char_height s * zoom_level s in
         let y_end := (char_idx + 1) * char_height s * zoom_level s in
         (char_idx, y_start, y_end, is_hovered s char_idx))
        <$> range 0 num_chars
    else []
  end.

(** ** The window's slots that the properties below refer to

    The message box a slot opens is part of its result. *)
Module MonkeyIslandFontEditor.

Inductive dialog :=
  | Information (title : string)
  | Warning (title : string).

Definition copy_selection (canvas : Canvas) : Canvas * dialog :=
  let '(canvas, ok) := copy_selection canvas in
  if ok then (clear_selection canvas, Information "Copied")
  else (canvas, Warning "No Selection").

Definition undo_action (canvas : Canvas) : Canvas * option dialog :=
  let '(canvas, ok) := undo canvas in
  if ok then (canvas, None)
  else if can_undo canvas then (canvas, Some (Information "Undo"))
  else (canvas, None).

Definition redo_action (canvas : Canvas) : Canvas * option dialog :=
  let '(canvas, ok) := redo canvas in
  if ok then (canvas, None)
  else if can_redo canvas then (canvas, Some (Information "Redo"))
  else (canvas, None).

Definition adjust_zoom (canvas : Canvas) (delta : Z) : Canvas :=
  let new_zoom := Z.max 5 (Z.min 50 (zoom_level canvas + delta)) in
  set_zoom canvas new_zoom.

End MonkeyIslandFontEditor.

(** ** Reachable states

    Every method of the canvas that changes it, as one step. *)
Inductive op :=
  | Load (pil_image : PilImage)
  | MousePress (event : QMouseEvent)
  | MouseMove (event : QMouseEvent)
  | MouseRelease (event : QMouseEvent)
  | DrawPixel (pos : Z * Z)
  | SetZoom (zoom : Z)
  | SetColor (color_index : Z)
  | SetCharHeight (height : Z)
  | CopySelection
  | ClearSelection
  | SetEditMode (mode : string)
  | StartPaste
  | CommitPaste
  | CancelPaste
  | SaveState (description : string)
  | Undo
  | Redo.

Definition run (o : op) (s : Canvas) : result Canvas :=
  match o with
  | Load pil_image => Ok (load_image s pil_image)
  | MousePress event => mousePressEvent s event
  | MouseMove event => mouseMoveEvent s event
  | MouseRelease event => Ok (mouseReleaseEvent s event)
  | DrawPixel pos => draw_pixel s pos
  | SetZoom zoom => Ok (set_zoom s zoom)
  | SetColor color_index => Ok (set_color s color_index)
  | SetCharHeight height => Ok (set_char_height s height)
  | CopySelection => Ok (copy_selection s).1
  | ClearSelection => Ok (clear_selection s)
  | SetEditMode mode => Ok (set_edit_mode s mode)
  | StartPaste => Ok (start_paste_mode s).1
  | CommitPaste => r ← commit_paste s; Ok r.1
  | CancelPaste => Ok (cancel_paste s)
  | SaveState description => Ok (save_state s description)
  | Undo => Ok (undo s).1
  | Redo => Ok (redo s).1
  end.

Inductive reachable : Canvas → Prop :=
  | reachable_init : reachable init
  | reachable_step s o s' :
      reachable s → run o s = Ok s' → reachable s'.

(** The three history operations, which never raise. *)
Inductive history_op :=
  | HSaveState (description : string)
  | HUndo
  | HRedo.

Definition run_history (s : Canvas) (o : history_op) : Canvas :=
  match o with
  | HSaveState description => save_state s description
  | HUndo => (undo s).1
  | HRedo => (redo s).1
  end.

(** A buffer of the size its dimensions announce. *)
Definition wf_image (img : QImage) : Prop :=
  0 ≤ img_width img ∧ 0 ≤ img_height img
  ∧ length (img_bits img) = Z.to_nat (img_width img * img_height img).

(** ** The colour table

    Qt stores an index in an Indexed8 image only if it is below the
    image's [colorCount()]; any other index leaves the pixel as it was,
    and a negative one does not even convert to the unsigned parameter
    of [setPixel].  Lines 99-105 give the image built by [load_image]
    256 colours when a palette is stored at that moment and none
    otherwise; the stored palette changes only at line 72, before that
    test, and the colour table never changes afterwards.  So the colour
    count of the current image can be read off the stored palette. *)
Definition colorCount (s : Canvas) : Z :=
  if truthy (original_palette s) then 256 else 0.

(** The indices a [setPixel] on the current image stores. *)
Definition accepted (s : Canvas) (c : Z) : Prop := 0 ≤ c < colorCount s.

(** ** Definitions used by the statements *)

(** The rule as the specification words it: the table, else
    [floor(height/256)] clamped to at least 1. *)
Definition spec_char_height (height : Z) : Z :=
  if bool_decide (height = 2048) then 8
  else if bool_decide (height = 2259) then 9
  else if bool_decide (height = 3390) then 15
  else if bool_decide (height = 3584) then 14
  else Z.max 1 (height / 256).

Definition strip (width height : Z) : PilImage :=
  mkPilImage ModeP (replicate 768 0) (width, height)
             (replicate (Z.to_nat (width * height)) 0).

Definition run_all (ops : list op) (s : Canvas) : result Canvas :=
  for_each ops (λ s o, run o s) s.

Definition shift_click (x y : Z) : QMouseEvent :=
  mkQMouseEvent true true (x, y).

(** A session on a 2x2 strip: select, copy through the window's slot,
    select again, start a paste. *)
Definition busy_canvas : Canvas :=
  let s := load_image init (strip 2 2) in
  let s := match mousePressEvent s (shift_click 0 0) with
           | Ok s => s
           | Raise _ => s
           end in
  let s := (MonkeyIslandFontEditor.copy_selection s).1 in
  let s := match mousePressEvent s (shift_click 25 25) with
           | Ok s => s
           | Raise _ => s
           end in
  (start_paste_mode s).1.

(** A 2x2 canvas whose newest undo entry and newest redo entry were
    taken from a 1x1 buffer. *)
Definition stale_canvas : Canvas :=
  let s := load_image init (strip 2 2) in
  let s := with_undo_stack [([7], "Draw", 2, 2); ([0], "Draw", 1, 1)] s in
  with_redo_stack [([0], "Current", 1, 1)] s.

(** The invariant behind the bound: the two stacks together never hold
    more than [max_history] entries. *)
Definition history_inv (s : Canvas) : Prop :=
  max_history s = 50
  ∧ Z.of_nat (length (undo_stack s) + length (redo_stack s))
    ≤ max_history s.

Definition same_history (s s' : Canvas) : Prop :=
  undo_stack s' = undo_stack s
  ∧ redo_stack s' = redo_stack s
  ∧ max_history s' = max_history s.

(** A canvas whose undo stack is full: fifty strokes on a 1x1 strip. *)
Definition full_canvas : Canvas :=
  foldl run_history (load_image init (strip 1 1))
        (replicate 50 (HSaveState "Draw")).

(** A 2x2 strip with its four pixels painted 1, 2, 3, 4, and a
    selection dragged from (1,1) past the corner to (2,2). *)
Definition painted : QImage := mkQImage 2 2 [1; 2; 3; 4].

Definition selecting_canvas : Canvas :=
  let s := with_image (Some painted) (load_image init (strip 2 2)) in
  with_selection_end (Some (2, 2)) (with_selection_start (Some (1, 1)) s).

(** A mutation is any run of pixel writes [(x, y, index)]; a protected
    one comes right after its own [save_state]. *)
Definition write_all (img : QImage) (writes : list (Z * Z * Z)) : QImage :=
  foldl (λ im '(x, y, c), setPixel im x y c) img writes.

Definition protected_edit (s : Canvas) (e : string * list (Z * Z * Z))
  : Canvas :=
  let s := save_state s e.1 in
  match image s with
  | Some img => with_image (Some (write_all img e.2)) s
  | None => s
  end.

Fixpoint undo_n (n : nat) (s : Canvas) : Canvas :=
  match n with
  | O => s
  | S n => undo_n n (undo s).1
  end.

Fixpoint redo_n (n : nat) (s : Canvas) : Canvas :=
  match n with
  | O => s
  | S n => redo_n n (redo s).1
  end.

(** The entry [save_state], [undo] and [redo] build from an image. *)
Definition entry (description : string) (img : QImage) : HistoryEntry :=
  (capture img, description, img_width img, img_height img).

(** The buffer after a run of edits, the buffers after each of them, and
    the entries their [save_state] calls push. *)
Definition final (img : QImage) (edits : list (string * list (Z * Z * Z)))
  : QImage :=
  foldl (λ im e, write_all im e.2) img edits.

Fixpoint currents (img : QImage) (edits : list (string * list (Z * Z * Z)))
  : list QImage :=
  match edits with
  | [] => []
  | e :: edits => write_all img e.2 :: currents (write_all img e.2) edits
  end.

Fixpoint snaps (img : QImage) (edits : list (string * list (Z * Z * Z)))
  : list HistoryEntry :=
  match edits with
  | [] => []
  | e :: edits => entry e.1 img :: snaps (write_all img e.2) edits
  end.

(** Two strokes on the painted 2x2 strip. *)
Definition two_strokes : list (string * list (Z * Z * Z)) :=
  [("Draw", [(0, 0, 9); (1, 0, 9)]); ("Paste", [(1, 1, 7); (5, 5, 7)])].

Definition painted_canvas : Canvas :=
  with_image (Some painted) (load_image init (strip 2 2)).


(** What holds of the canvas in every reachable state: the buffer has
    the size its dimensions announce, a selection corner or a clipboard
    implies a loaded image, the clipboard payload has the size stored
    with it, and a paste session has a payload and a position. *)
Definition canvas_inv (s : Canvas) : Prop :=
  (∀ img, image s = Some img → wf_image img)
  ∧ (is_Some (selection_start s) ∨ is_Some (selection_end s) →
     is_Some (image s))
  ∧ (∀ payload, clipboard_data s = Some payload →
       is_Some (image s)
       ∧ ∃ cw ch, clipboard_size s = Some (cw, ch)
                  ∧ 1 ≤ cw ∧ 1 ≤ ch
                  ∧ Z.of_nat (length payload) = cw * ch)
  ∧ (paste_mode s = true →
     is_Some (clipboard_data s) ∧ is_Some (paste_position s)).

(** ** Sessions: runs of operations from a fresh canvas *)

Definition left_click (x y : Z) : QMouseEvent :=
  mkQMouseEvent true false (x, y).

Definition session (ops : list op) : Canvas :=
  match run_all ops init with
  | Ok s => s
  | Raise _ => init
  end.

(** Paint the top left pixel of a 2x2 strip, then drag a selection from
    (0,0) past the bottom right corner to (2,2). *)
Definition dragging_session : list op :=
  [Load (strip 2 2); MousePress (left_click 5 5);
   MouseRelease (left_click 5 5); MousePress (shift_click 5 5);
   MouseMove (shift_click 50 50)].

(** Paint the top left pixel, copy the whole strip, start a paste and
    drag the overlay to (1,1), so that three of the four payload cells
    fall outside. *)
Definition pasting_session : list op :=
  [Load (strip 2 2); MousePress (left_click 5 5);
   MouseRelease (left_click 5 5); MousePress (shift_click 5 5);
   MouseMove (shift_click 25 25); MouseRelease (shift_click 25 25);
   CopySelection; ClearSelection; StartPaste;
   MousePress (left_click 25 25)].

(** ** History entries and the buffer *)

(** An entry records the size of the buffer it was taken from. *)
Definition entry_fits (img : QImage) (e : HistoryEntry) : Prop :=
  e.1.2 = img_width img ∧ e.2 = img_height img.

(** Every entry on either stack has the size of the current buffer, and
    there is no entry at all before the first load. *)
Definition history_fits (s : Canvas) : Prop :=
  match image s with
  | None => undo_stack s = [] ∧ redo_stack s = []
  | Some img =>
    Forall (entry_fits img) (undo_stack s)
    ∧ Forall (entry_fits img) (redo_stack s)
  end.

Definition same_size (a b : option QImage) : Prop :=
  match a, b with
  | None, None => True
  | Some x, Some y =>
    img_width y = img_width x ∧ img_height y = img_height x
  | _, _ => False
  end.

(** A step that leaves the history alone and keeps the buffer size. *)
Definition same_frame (s s' : Canvas) : Prop :=
  same_history s s' ∧ same_size (image s) (image s').

(** One stroke on a 2x2 strip: press on the top left pixel, drag to the
    bottom right one, release. *)
Definition stroke_session : list op :=
  [Load (strip 2 2); MousePress (left_click 5 5);
   MouseMove (left_click 25 25); MouseRelease (left_click 25 25)].

(** ** The stored palette *)

(** Any operation but the load of an indexed image. *)
Definition no_indexed_load (o : op) : Prop :=
  ∀ pil_image, o = Load pil_image → pil_mode pil_image = ModeOther.

(** A step that keeps the stored palette and a loaded image loaded. *)
Definition keeps_palette (s s' : Canvas) : Prop :=
  original_palette s' = original_palette s
  ∧ (is_Some (image s) → is_Some (image s')).

(** A true-colour picture of the same size as [strip]. *)
Definition rgb_picture (width height : Z) : PilImage :=
  mkPilImage ModeOther [] (width, height)
             (replicate (Z.to_nat (width * height)) 0).

(** ** What the window can do to the canvas

    The window changes the zoom only through [adjust_zoom], which
    clamps it to 5..50, and never calls [set_char_height]. *)
Definition window_op (o : op) : Prop :=
  match o with
  | SetZoom zoom => 5 ≤ zoom ≤ 50
  | SetCharHeight _ => False
  | _ => True
  end.

Inductive window_reachable : Canvas → Prop :=
  | window_reachable_init : window_reachable init
  | window_reachable_step s o s' :
      window_reachable s → window_op o → run o s = Ok s' →
      window_reachable s'.

(** A step that keeps the zoom and the character height. *)
Definition same_settings (s s' : Canvas) : Prop :=
  zoom_level s' = zoom_level s ∧ char_height s' = char_height s.

(** A step that does not lose the clipboard. *)
Definition keeps_clipboard (s s' : Canvas) : Prop :=
  is_Some (clipboard_data s) → is_Some (clipboard_data s').

(** * Properties *)

(** ** Character height *)

Lemma load_image_char_height s pil_image :
  char_height (load_image s pil_image)
  = detect_char_height (pil_size pil_image).2.
Proof.
  unfold load_image. destruct (pil_size pil_image) as [w h].
  by destruct (pil_mode pil_image).
Qed.

(** C1, as claimed, fails: a strip 100 rows tall gets height 8, where
    the clamp would give 1. *)
Lemma C1_counterexample :
  char_height (load_image init (strip 1 100)) ≠ spec_char_height 100.
Proof. vm_compute. discriminate. Qed.

(** C1, amended: after a load the character height is the table value
    for the four listed heights; for any other height it is
    [floor(height/256)] when that is at least 1, and 8 otherwise. *)
Theorem C1_char_height_detection s pil_image :
  let height := (pil_size pil_image).2 in
  let ch := char_height (load_image s pil_image) in
  (height = 2048 → ch = 8) ∧
  (height = 2259 → ch = 9) ∧
  (height = 3390 → ch = 15) ∧
  (height = 3584 → ch = 14) ∧
  (height ∉ [2048; 2259; 3390; 3584] →
     (1 ≤ height / 256 → ch = height / 256) ∧
     (height / 256 < 1 → ch = 8)).
Proof.
  intros height ch. subst ch. rewrite load_image_char_height.
  fold height. unfold detect_char_height.
  split_and!; try (by intros ->).
  intros Hnot. rewrite !not_elem_of_cons in Hnot.
  destruct Hnot as (? & ? & ? & ? & _).
  rewrite !bool_decide_eq_false_2 by done.
  split; intros.
  - by rewrite bool_decide_eq_false_2 by lia.
  - by rewrite bool_decide_eq_true_2 by lia.
Qed.

Lemma C1_char_height_detection_witness :
  char_height (load_image init (strip 8 2048)) = 8
  ∧ char_height (load_image init (strip 8 1024)) = 1024 / 256
  ∧ char_height (load_image init (strip 8 24)) = 8.
Proof.
  pose proof (C1_char_height_detection init (strip 8 2048)) as H1.
  pose proof (C1_char_height_detection init (strip 8 1024)) as H2.
  pose proof (C1_char_height_detection init (strip 8 24)) as H3.
  cbv zeta in H1, H2, H3.
  destruct H1 as [H1 _].
  destruct H2 as (_ & _ & _ & _ & H2).
  destruct H3 as (_ & _ & _ & _ & H3).
  split; [apply H1; reflexivity|].
  split.
  - apply H2; [|vm_compute; discriminate].
    cbn. rewrite !elem_of_cons, elem_of_nil. lia.
  - apply H3; [|reflexivity].
    cbn. rewrite !elem_of_cons, elem_of_nil. lia.
Defined.

(** ** Loading a strip *)

Lemma run_all_reachable ops : ∀ s s',
  reachable s → run_all ops s = Ok s' → reachable s'.
Proof.
  induction ops as [|o ops IH]; intros s s' Hs Hrun.
  - by injection Hrun as <-.
  - unfold run_all in Hrun. simpl in Hrun.
    destruct (run o s) as [s1|e] eqn:Ho; [|done].
    eapply IH; [|exact Hrun]. by eapply reachable_step.
Qed.

Lemma busy_canvas_reachable : reachable busy_canvas.
Proof.
  apply (run_all_reachable
           [Load (strip 2 2); MousePress (shift_click 0 0); CopySelection;
            ClearSelection; MousePress (shift_click 25 25); StartPaste]
           init); [constructor|].
  vm_compute. reflexivity.
Qed.



(** ** Palette round trip *)

(** C5: saving right after loading an indexed image hands PIL the very
    palette list that [getpalette()] returned for the source. *)
Theorem C5_palette_round_trip s x :
  pil_mode x = ModeP →
  pil_palette x ≠ [] →
  ∃ out, save_image (load_image s x) = (true, Some out)
         ∧ pil_mode out = ModeP
         ∧ pil_palette out = pil_palette x.
Proof.
  intros Hmode Hpal. unfold load_image, save_image.
  destruct (pil_size x) as [w h]. rewrite Hmode. cbn.
  destruct (pil_palette x) as [|p palette]; [done|].
  eexists. split; [reflexivity|]. done.
Qed.

Lemma C5_palette_round_trip_witness :
  ∃ out, save_image (load_image busy_canvas (strip 2 3)) = (true, Some out)
         ∧ pil_mode out = ModeP
         ∧ pil_palette out = pil_palette (strip 2 3).
Proof.
  apply (C5_palette_round_trip busy_canvas (strip 2 3)).
  - reflexivity.
  - vm_compute. discriminate.
Defined.

(** ** Out of range painting *)

(** C8, as claimed, fails: a click past the right and bottom edge of a
    2x2 strip returns normally. *)
Lemma C8_counterexample :
  let s := load_image init (strip 2 2) in
  draw_pixel s (100, 100) = Ok s
  ∧ ¬ ∃ e, draw_pixel s (100, 100) = Raise e.
Proof. vm_compute. split; [reflexivity|]. by intros [e ?]. Qed.

(** C8, amended: when the pixel under the position lies outside
    [0,width) x [0,height), [draw_pixel] returns normally, raises
    nothing, and leaves the whole canvas, buffer included, as it was. *)
Theorem C8_draw_out_of_range_ignored s img pos :
  image s = Some img →
  zoom_level s ≠ 0 →
  let x := pos.1 / zoom_level s in
  let y := pos.2 / zoom_level s in
  ¬ (0 ≤ x < img_width img ∧ 0 ≤ y < img_height img) →
  draw_pixel s pos = Ok s.
Proof.
  intros Himg Hzoom x y Hout. unfold draw_pixel. rewrite Himg.
  rewrite bool_decide_eq_false_2 by done.
  fold x y. by rewrite bool_decide_eq_false_2.
Qed.

Lemma C8_draw_out_of_range_ignored_witness :
  let s := load_image init (strip 2 2) in
  draw_pixel s (-5, 10) = Ok s.
Proof.
  apply (C8_draw_out_of_range_ignored (load_image init (strip 2 2))
           (mkQImage 2 2 [0; 0; 0; 0]) (-5, 10)).
  - reflexivity.
  - vm_compute. discriminate.
  - vm_compute. intros [[H _] _]. by apply H.
Defined.

(** ** History: the stacks *)

Lemma pop_snoc {A} (l : list A) a : pop (l ++ [a]) = Some (l, a).
Proof. unfold pop. by rewrite reverse_snoc, reverse_involutive. Qed.

Lemma pop_nil {A} : pop (@nil A) = None.
Proof. done. Qed.

Lemma pop_Some {A} (l rest : list A) a :
  pop l = Some (rest, a) → l = rest ++ [a].
Proof.
  unfold pop. intros H. destruct (reverse l) as [|b r] eqn:Hr; [done|].
  injection H as <- <-.
  by rewrite <- (reverse_involutive l), Hr, reverse_cons.
Qed.

Lemma pop_None {A} (l : list A) : pop l = None → l = [].
Proof.
  unfold pop. destruct (reverse l) as [|b r] eqn:Hr; [|done].
  intros _. by rewrite <- (reverse_involutive l), Hr.
Qed.

(** What [undo] does when the newest entry does not fit the buffer. *)
Lemma undo_mismatch s img rest pixel_data description w h :
  image s = Some img →
  undo_stack s = rest ++ [(pixel_data, description, w, h)] →
  ¬ (w = img_width img ∧ h = img_height img) →
  undo s =
    (with_undo_stack rest
       (with_redo_stack
          (redo_stack s
           ++ [(capture img, "Current", img_width img, img_height img)]) s),
     false).
Proof.
  intros Himg Hstack Hdim. unfold undo.
  rewrite Himg, Hstack, pop_snoc. cbn.
  by rewrite bool_decide_eq_false_2.
Qed.

Lemma redo_mismatch s img rest pixel_data description w h :
  image s = Some img →
  redo_stack s = rest ++ [(pixel_data, description, w, h)] →
  ¬ (w = img_width img ∧ h = img_height img) →
  redo s =
    (with_redo_stack rest
       (with_undo_stack
          (undo_stack s
           ++ [(capture img, "Current", img_width img, img_height img)]) s),
     false).
Proof.
  intros Himg Hstack Hdim. unfold redo.
  rewrite Himg, Hstack, pop_snoc. cbn.
  by rewrite bool_decide_eq_false_2.
Qed.

(** C3: when the newest undo entry has another width or height than the
    buffer, [undo] answers [False], the entry is gone from the undo
    stack and the image is the one it was; likewise for [redo] and the
    redo stack. *)
Theorem C3_mismatch_consumes_entry s img rest pixel_data description w h :
  image s = Some img →
  (w ≠ img_width img ∨ h ≠ img_height img) →
  (undo_stack s = rest ++ [(pixel_data, description, w, h)] →
     (undo s).2 = false
     ∧ undo_stack (undo s).1 = rest
     ∧ image (undo s).1 = Some img)
  ∧ (redo_stack s = rest ++ [(pixel_data, description, w, h)] →
     (redo s).2 = false
     ∧ redo_stack (redo s).1 = rest
     ∧ image (redo s).1 = Some img).
Proof.
  intros Himg Hdim.
  assert (¬ (w = img_width img ∧ h = img_height img)) as Hne by tauto.
  split; intros Hstack.
  - by rewrite (undo_mismatch _ _ _ _ _ _ _ Himg Hstack Hne).
  - by rewrite (redo_mismatch _ _ _ _ _ _ _ Himg Hstack Hne).
Qed.

Lemma C3_mismatch_consumes_entry_witness :
  ((undo stale_canvas).2 = false
   ∧ undo_stack (undo stale_canvas).1 = [([7], "Draw", 2, 2)]
   ∧ image (undo stale_canvas).1 = Some (mkQImage 2 2 [0; 0; 0; 0]))
  ∧ ((redo stale_canvas).2 = false
     ∧ redo_stack (redo stale_canvas).1 = []
     ∧ image (redo stale_canvas).1 = Some (mkQImage 2 2 [0; 0; 0; 0])).
Proof.
  split.
  - apply (C3_mismatch_consumes_entry stale_canvas
             (mkQImage 2 2 [0; 0; 0; 0]) [([7], "Draw", 2, 2)]
             [0] "Draw" 1 1).
    + reflexivity.
    + left. vm_compute. discriminate.
    + reflexivity.
  - apply (C3_mismatch_consumes_entry stale_canvas
             (mkQImage 2 2 [0; 0; 0; 0]) [] [0] "Current" 1 1).
    + reflexivity.
    + left. vm_compute. discriminate.
    + reflexivity.
Defined.

(** C10: an [undo] that fails on a dimension mismatch has already
    appended a snapshot of the current buffer to the redo stack, which
    is one entry longer and makes [can_redo] answer [True]; a failing
    [redo] does the same to the undo stack. *)
Theorem C10_failed_undo_grows_redo s img rest pixel_data description w h :
  image s = Some img →
  (w ≠ img_width img ∨ h ≠ img_height img) →
  (undo_stack s = rest ++ [(pixel_data, description, w, h)] →
     (undo s).2 = false
     ∧ redo_stack (undo s).1
       = redo_stack s
         ++ [(capture img, "Current", img_width img, img_height img)]
     ∧ length (redo_stack (undo s).1) = S (length (redo_stack s))
     ∧ can_redo (undo s).1 = true)
  ∧ (redo_stack s = rest ++ [(pixel_data, description, w, h)] →
     (redo s).2 = false
     ∧ undo_stack (redo s).1
       = undo_stack s
         ++ [(capture img, "Current", img_width img, img_height img)]
     ∧ length (undo_stack (redo s).1) = S (length (undo_stack s))
     ∧ can_undo (redo s).1 = true).
Proof.
  intros Himg Hdim.
  assert (¬ (w = img_width img ∧ h = img_height img)) as Hne by tauto.
  split; intros Hstack.
  - rewrite (undo_mismatch _ _ _ _ _ _ _ Himg Hstack Hne). cbn.
    unfold can_redo. cbn. rewrite length_app. cbn.
    split_and!; [done|done|lia|]. apply bool_decide_eq_true_2. lia.
  - rewrite (redo_mismatch _ _ _ _ _ _ _ Himg Hstack Hne). cbn.
    unfold can_undo. cbn. rewrite length_app. cbn.
    split_and!; [done|done|lia|]. apply bool_decide_eq_true_2. lia.
Qed.

Lemma C10_failed_undo_grows_redo_witness :
  ((undo stale_canvas).2 = false
   ∧ redo_stack (undo stale_canvas).1
     = [([0], "Current", 1, 1); ([0; 0; 0; 0], "Current", 2, 2)]
   ∧ length (redo_stack (undo stale_canvas).1) = 2%nat
   ∧ can_redo (undo stale_canvas).1 = true)
  ∧ ((redo stale_canvas).2 = false
     ∧ undo_stack (redo stale_canvas).1
       = [([7], "Draw", 2, 2); ([0], "Draw", 1, 1);
          ([0; 0; 0; 0], "Current", 2, 2)]
     ∧ length (undo_stack (redo stale_canvas).1) = 3%nat
     ∧ can_undo (redo stale_canvas).1 = true).
Proof.
  split.
  - apply (C10_failed_undo_grows_redo stale_canvas
             (mkQImage 2 2 [0; 0; 0; 0]) [([7], "Draw", 2, 2)]
             [0] "Draw" 1 1).
    + reflexivity.
    + left. vm_compute. discriminate.
    + reflexivity.
  - apply (C10_failed_undo_grows_redo stale_canvas
             (mkQImage 2 2 [0; 0; 0; 0]) [] [0] "Current" 1 1).
    + reflexivity.
    + left. vm_compute. discriminate.
    + reflexivity.
Defined.

(** ** History: the bound *)

Lemma same_history_inv s s' :
  same_history s s' → history_inv s → history_inv s'.
Proof. intros (Hu & Hr & Hm) [? ?]. unfold history_inv. by rewrite Hu, Hr, Hm. Qed.

Lemma same_history_refl s : same_history s s.
Proof. done. Qed.

Lemma same_history_trans s1 s2 s3 :
  same_history s1 s2 → same_history s2 s3 → same_history s1 s3.
Proof. intros (? & ? & ?) (? & ? & ?). unfold same_history. split_and!; congruence. Qed.

Lemma draw_pixel_same_history s pos s' :
  draw_pixel s pos = Ok s' → same_history s s'.
Proof.
  unfold draw_pixel. intros H.
  repeat (case_match; simplify_eq); done.
Qed.

Lemma paste_cell_same_history px py cw data dy s dx s' :
  paste_cell px py cw data dy s dx = Ok s' → same_history s s'.
Proof.
  unfold paste_cell. intros H.
  repeat (case_match; simplify_eq); done.
Qed.

Lemma for_each_same_history {A} (body : Canvas → A → result Canvas) l :
  (∀ s a s', body s a = Ok s' → same_history s s') →
  ∀ s s', for_each l body s = Ok s' → same_history s s'.
Proof.
  intros Hbody. induction l as [|a l IH]; intros s s' H; simpl in H.
  - by injection H as <-.
  - destruct (body s a) as [s1|e] eqn:Hb; [|done].
    eapply same_history_trans; [by eapply Hbody|by apply IH].
Qed.

Lemma save_state_inv s description :
  history_inv s → history_inv (save_state s description).
Proof.
  intros [Hm Hle]. unfold save_state.
  destruct (image s) as [img|]; [|done].
  cbn. case_bool_decide as Hgt; unfold history_inv; cbn;
    rewrite ?length_drop, ?length_app in *; cbn in *; split; try done; lia.
Qed.

Lemma undo_inv s : history_inv s → history_inv (undo s).1.
Proof.
  intros [Hm Hle]. unfold undo.
  destruct (image s) as [img|]; [|done].
  destruct (pop (undo_stack s)) as [[rest [[[pd d] w] h]]|] eqn:Hpop; [|done].
  apply pop_Some in Hpop. rewrite Hpop, length_app in Hle. cbn in Hle.
  case_bool_decide; unfold history_inv; cbn;
    rewrite length_app; cbn; split; try done; lia.
Qed.

Lemma redo_inv s : history_inv s → history_inv (redo s).1.
Proof.
  intros [Hm Hle]. unfold redo.
  destruct (image s) as [img|]; [|done].
  destruct (pop (redo_stack s)) as [[rest [[[pd d] w] h]]|] eqn:Hpop; [|done].
  apply pop_Some in Hpop. rewrite Hpop, length_app in Hle. cbn in Hle.
  case_bool_decide; unfold history_inv; cbn;
    rewrite length_app; cbn; split; try done; lia.
Qed.

Lemma commit_paste_inv s s' ok :
  commit_paste s = Ok (s', ok) → history_inv s → history_inv s'.
Proof.
  unfold commit_paste. intros H Hinv.
  destruct (paste_mode s); [|by simplify_eq].
  destruct (clipboard_data s) as [[|d data]|]; try by simplify_eq.
  destruct (paste_position s) as [[px py]|]; [|by simplify_eq].
  destruct (clipboard_size (save_state s "Paste")) as [[cw ch]|]; [|done].
  cbn in H.
  destruct (for_each _ _ _) as [s1|e] eqn:Hloop; [|done].
  cbn in H. simplify_eq.
  apply (same_history_inv s1); [done|].
  eapply same_history_inv; [|by apply (save_state_inv s "Paste")].
  eapply for_each_same_history; [|exact Hloop].
  intros s2 dy s3. apply for_each_same_history.
  intros s4 dx s5. apply paste_cell_same_history.
Qed.

Lemma run_inv o s s' : run o s = Ok s' → history_inv s → history_inv s'.
Proof.
  destruct o; cbn; intros H Hinv.
  - simplify_eq. unfold load_image.
    destruct (pil_size pil_image) as [w h]. destruct Hinv as [Hm _].
    destruct (pil_mode pil_image); unfold history_inv; cbn; lia.
  - unfold mousePressEvent in H.
    destruct (image s); [|by simplify_eq].
    destruct (ev_left event); [|by simplify_eq].
    destruct (paste_mode s).
    { case_bool_decide; simplify_eq.
      by apply (same_history_inv s). }
    destruct (_ || _).
    { case_bool_decide; simplify_eq.
      by apply (same_history_inv s). }
    case_bool_decide; [|by simplify_eq].
    apply draw_pixel_same_history in H.
    eapply same_history_inv; [exact H|].
    eapply same_history_inv; [|by apply (save_state_inv s "Draw")].
    done.
  - unfold mouseMoveEvent in H.
    destruct (image s); [|by simplify_eq].
    case_bool_decide; [done|].
    cbn in H. destruct (selecting s).
    { simplify_eq. by apply (same_history_inv s). }
    destruct (paste_dragging s).
    { simplify_eq. by apply (same_history_inv s). }
    destruct (drawing s).
    { apply draw_pixel_same_history in H.
      eapply same_history_inv; [exact H|]. by apply (same_history_inv s). }
    simplify_eq. by apply (same_history_inv s).
  - simplify_eq. unfold mouseReleaseEvent.
    destruct (ev_left event); [|done]. by apply (same_history_inv s).
  - apply draw_pixel_same_history in H. by eapply same_history_inv.
  - simplify_eq. by apply (same_history_inv s).
  - simplify_eq. by apply (same_history_inv s).
  - simplify_eq. by apply (same_history_inv s).
  - simplify_eq. apply (same_history_inv s); [|done].
    unfold copy_selection. by repeat case_match.
  - simplify_eq. by apply (same_history_inv s).
  - simplify_eq. apply (same_history_inv s); [|done].
    unfold set_edit_mode. by repeat case_bool_decide.
  - simplify_eq. apply (same_history_inv s); [|done].
    unfold start_paste_mode. by case_match.
  - destruct (commit_paste s) as [[s1 ok]|e] eqn:Hc; [|done].
    cbn in H. simplify_eq. by eapply commit_paste_inv.
  - simplify_eq. by apply (same_history_inv s).
  - simplify_eq. by apply save_state_inv.
  - simplify_eq. by apply undo_inv.
  - simplify_eq. by apply redo_inv.
Qed.

Lemma reachable_inv s : reachable s → history_inv s.
Proof.
  induction 1 as [|s o s' _ IH Hrun].
  - unfold history_inv. cbn. lia.
  - by eapply run_inv.
Qed.

Lemma run_history_inv ops : ∀ s,
  history_inv s → history_inv (foldl run_history s ops).
Proof.
  induction ops as [|o ops IH]; intros s Hinv; [done|].
  cbn. apply IH. destruct o; cbn.
  - by apply save_state_inv.
  - by apply undo_inv.
  - by apply redo_inv.
Qed.

Lemma run_history_max ops : ∀ s,
  max_history (foldl run_history s ops) = max_history s.
Proof.
  induction ops as [|o ops IH]; intros s; [done|].
  cbn. rewrite IH. destruct o; cbn.
  - unfold save_state. destruct (image s); [|done].
    cbn. by case_bool_decide.
  - unfold undo. repeat case_match; done.
  - unfold redo. repeat case_match; done.
Qed.

Lemma full_canvas_reachable : reachable full_canvas.
Proof.
  apply (run_all_reachable
           (Load (strip 1 1) :: replicate 50 (SaveState "Draw")) init);
    [constructor|].
  vm_compute. reflexivity.
Qed.

(** C2: in a reachable state, and after any further run of [save_state],
    [undo] and [redo], the undo stack holds at most [max_history] = 50
    entries; and a [save_state] on a full stack drops the oldest entry
    and keeps the others, in order, below the new snapshot. *)
Theorem C2_undo_stack_bounded s :
  reachable s →
  max_history s = 50
  ∧ (∀ ops : list history_op,
       Z.of_nat (length (undo_stack (foldl run_history s ops)))
       ≤ max_history (foldl run_history s ops))
  ∧ (∀ img oldest rest description,
       image s = Some img →
       undo_stack s = oldest :: rest →
       Z.of_nat (length (undo_stack s)) + 1 > max_history s →
       undo_stack (save_state s description)
       = rest ++ [(capture img, description, img_width img, img_height img)]).
Proof.
  intros Hreach. pose proof (reachable_inv s Hreach) as Hinv.
  split; [apply Hinv|]. split.
  - intros ops. destruct (run_history_inv ops s Hinv) as [_ Hle].
    rewrite Nat2Z.inj_add in Hle. lia.
  - intros img oldest rest description Himg Hstack Hfull.
    unfold save_state. rewrite Himg. cbn. rewrite Hstack in *.
    rewrite bool_decide_eq_true_2; [done|].
    rewrite length_app. cbn in *. lia.
Qed.

Lemma C2_undo_stack_bounded_witness :
  max_history full_canvas = 50
  ∧ Z.of_nat (length (undo_stack
       (foldl run_history full_canvas [HSaveState "Paste"; HUndo; HRedo])))
    ≤ 50
  ∧ undo_stack (save_state full_canvas "Paste")
    = replicate 49 ([0], "Draw", 1, 1) ++ [([0], "Paste", 1, 1)].
Proof.
  destruct (C2_undo_stack_bounded full_canvas full_canvas_reachable)
    as (Hmax & Hbound & Hevict).
  split; [exact Hmax|]. split.
  - apply (Hbound [HSaveState "Paste"; HUndo; HRedo]).
  - apply (Hevict (mkQImage 1 1 [0]) ([0], "Draw", 1, 1)
                  (replicate 49 ([0], "Draw", 1, 1)) "Paste").
    + reflexivity.
    + reflexivity.
    + vm_compute. reflexivity.
Defined.

(** ** Loops over a range *)

Lemma foldl_seqZ_inv {St} (P : Z → St → Prop) (f : St → Z → St) (m : nat) :
  ∀ a s,
  P a s →
  (∀ i s, a ≤ i < a + Z.of_nat m → P i s → P (i + 1) (f s i)) →
  P (a + Z.of_nat m) (foldl f s (seqZ a (Z.of_nat m))).
Proof.
  induction m as [|m IH]; intros a s Ha Hstep.
  { cbn. by rewrite Z.add_0_r. }
  rewrite seqZ_cons by lia. cbn [foldl].
  replace (a + Z.of_nat (S m)) with (Z.succ a + Z.of_nat m) by lia.
  replace (Z.pred (Z.of_nat (S m))) with (Z.of_nat m) by lia.
  apply IH.
  - replace (Z.succ a) with (a + 1) by lia. apply Hstep; [lia|done].
  - intros i s' Hi. apply Hstep. lia.
Qed.

(** A [for i in range(a, b)] loop keeps an invariant indexed by [i]. *)
Lemma foldl_range_inv {St} (P : Z → St → Prop) (f : St → Z → St) a b s :
  P a s →
  (∀ i s, a ≤ i < b → P i s → P (i + 1) (f s i)) →
  P (Z.max a b) (foldl f s (range a b)).
Proof.
  unfold range. intros Ha Hstep.
  destruct (decide (b ≤ a)) as [Hle|Hlt].
  { rewrite seqZ_nil by lia. by replace (Z.max a b) with a by lia. }
  replace (Z.max a b) with (a + Z.of_nat (Z.to_nat (b - a))) by lia.
  set (m := Z.to_nat (b - a)).
  replace (b - a) with (Z.of_nat m) by lia.
  apply foldl_seqZ_inv; [done|].
  intros i s' Hi. apply Hstep. lia.
Qed.

Lemma for_each_seqZ_inv {St} (P : Z → St → Prop) (body : St → Z → result St)
    (m : nat) :
  ∀ a s,
  P a s →
  (∀ i s, a ≤ i < a + Z.of_nat m → P i s →
          ∃ s', body s i = Ok s' ∧ P (i + 1) s') →
  ∃ s', for_each (seqZ a (Z.of_nat m)) body s = Ok s'
        ∧ P (a + Z.of_nat m) s'.
Proof.
  induction m as [|m IH]; intros a s Ha Hstep.
  { cbn. exists s. by rewrite Z.add_0_r. }
  rewrite seqZ_cons by lia. cbn [for_each].
  destruct (Hstep a s) as (s1 & Hbody & Hs1); [lia|done|].
  rewrite Hbody. cbn.
  replace (a + Z.of_nat (S m)) with (Z.succ a + Z.of_nat m) by lia.
  replace (Z.pred (Z.of_nat (S m))) with (Z.of_nat m) by lia.
  apply IH.
  - by replace (Z.succ a) with (a + 1) by lia.
  - intros i s' Hi. apply Hstep. lia.
Qed.

(** The same for a loop whose body may raise: if no turn raises under
    the invariant, the loop does not. *)
Lemma for_each_range_inv {St} (P : Z → St → Prop) (body : St → Z → result St)
    a b s :
  P a s →
  (∀ i s, a ≤ i < b → P i s → ∃ s', body s i = Ok s' ∧ P (i + 1) s') →
  ∃ s', for_each (range a b) body s = Ok s' ∧ P (Z.max a b) s'.
Proof.
  unfold range. intros Ha Hstep.
  destruct (decide (b ≤ a)) as [Hle|Hlt].
  { rewrite seqZ_nil by lia. exists s.
    by replace (Z.max a b) with a by lia. }
  replace (Z.max a b) with (a + Z.of_nat (Z.to_nat (b - a))) by lia.
  set (m := Z.to_nat (b - a)).
  replace (b - a) with (Z.of_nat m) by lia.
  apply for_each_seqZ_inv; [done|].
  intros i s' Hi. apply Hstep. lia.
Qed.

(** ** The image buffer *)

Lemma setPixel_width img x y c :
  img_width (setPixel img x y c) = img_width img.
Proof. unfold setPixel. by case_match. Qed.

Lemma setPixel_height img x y c :
  img_height (setPixel img x y c) = img_height img.
Proof. unfold setPixel. by case_match. Qed.

Lemma setPixel_valid img x y c x' y' :
  valid (setPixel img x y c) x' y' = valid img x' y'.
Proof. unfold valid. by rewrite setPixel_width, setPixel_height. Qed.

Lemma setPixel_wf img x y c : wf_image img → wf_image (setPixel img x y c).
Proof.
  unfold wf_image. rewrite setPixel_width, setPixel_height.
  intros (? & ? & Hlen). split_and!; [done..|].
  unfold setPixel. case_match; [|done]. cbn. by rewrite length_insert.
Qed.

Lemma offset_lt img x y :
  wf_image img → valid img x y = true →
  (offset img x y < length (img_bits img))%nat.
Proof.
  intros (Hw & Hh & Hlen) Hv. apply bool_decide_eq_true_1 in Hv.
  rewrite Hlen. unfold offset. nia.
Qed.

Lemma offset_inj img x y x' y' :
  valid img x y = true → valid img x' y' = true →
  offset img x y = offset img x' y' → x = x' ∧ y = y'.
Proof.
  intros Hv Hv'. apply bool_decide_eq_true_1 in Hv, Hv'.
  unfold offset. intros Heq.
  assert (y * img_width img + x = y' * img_width img + x') as Hz by nia.
  assert (y = y') by nia. subst y'. lia.
Qed.

Lemma pixelIndex_setPixel img x y c x' y' :
  wf_image img → valid img x' y' = true →
  pixelIndex (setPixel img x y c) x' y'
  = if bool_decide (x' = x ∧ y' = y) then c else pixelIndex img x' y'.
Proof.
  intros Hwf Hv'. unfold pixelIndex. rewrite setPixel_valid, Hv'.
  unfold setPixel. destruct (valid img x y) eqn:Hv.
  - cbn. case_bool_decide as Heq.
    + destruct Heq as [-> ->].
      unfold offset at 1. cbn. fold (offset img x y).
      apply list_lookup_total_insert_eq. by apply offset_lt.
    + unfold offset at 1. cbn. fold (offset img x' y').
      apply list_lookup_total_insert_ne. intros Ho.
      apply Heq. by destruct (offset_inj _ _ _ _ _ Hv Hv' Ho) as [-> ->].
  - case_bool_decide as Heq; [|done].
    destruct Heq as [-> ->]. congruence.
Qed.

(** Two buffers of one size that agree on every pixel are the same. *)
Lemma image_ext a b :
  wf_image a → wf_image b →
  img_width a = img_width b → img_height a = img_height b →
  (∀ x y, valid a x y = true → pixelIndex a x y = pixelIndex b x y) →
  a = b.
Proof.
  intros Hwa Hwb Hw Hh Hpix.
  destruct a as [w h bits], b as [w' h' bits']. cbn in *. subst w' h'.
  f_equal.
  destruct Hwa as (Hw0 & Hh0 & Hla), Hwb as (_ & _ & Hlb). cbn in *.
  apply (list_eq_same_length _ _ (Z.to_nat (w * h))); [done..|].
  intros k v v' Hk Hv Hv'.
  assert (0 < w) as Hwpos by nia.
  specialize (Hpix (Z.of_nat k `mod` w) (Z.of_nat k `div` w)).
  unfold pixelIndex, valid, offset in Hpix. cbn in Hpix.
  pose proof (Z.mod_pos_bound (Z.of_nat k) w Hwpos).
  pose proof (Z.div_mod (Z.of_nat k) w ltac:(lia)) as Hdm.
  assert (0 ≤ Z.of_nat k `div` w < h) as Hdiv.
  { split; [apply Z.div_pos; lia|].
    apply Z.div_lt_upper_bound; [done|]. nia. }
  rewrite bool_decide_eq_true_2 in Hpix by lia.
  replace (Z.to_nat (Z.of_nat k `div` w * w + Z.of_nat k `mod` w))
    with k in Hpix by lia.
  rewrite (list_lookup_total_correct _ _ _ Hv) in Hpix.
  rewrite (list_lookup_total_correct _ _ _ Hv') in Hpix.
  by apply Hpix.
Qed.

(** ** Reading a rectangle *)

(** Two nested loops that append one value per cell build the rectangle
    row by row. *)
Lemma collect_grid (body : list Z → Z → Z → list Z) (g : Z → Z → Z)
    x1 x2 y1 y2 :
  (∀ cd x y, body cd x y = cd ++ [g x y]) →
  x1 ≤ x2 → y1 ≤ y2 →
  let data :=
    foldl (λ cd y, foldl (λ cd x, body cd x y) cd (range x1 x2))
          [] (range y1 y2) in
  Z.of_nat (length data) = (y2 - y1) * (x2 - x1)
  ∧ ∀ x y, x1 ≤ x < x2 → y1 ≤ y < y2 →
      data !! Z.to_nat ((y - y1) * (x2 - x1) + (x - x1)) = Some (g x y).
Proof.
  intros Hbody Hx Hy data. subst data.
  set (W := x2 - x1).
  pose (P := λ (y : Z) (cd : list Z),
    Z.of_nat (length cd) = (y - y1) * W
    ∧ ∀ x' y', x1 ≤ x' < x2 → y1 ≤ y' < y →
        cd !! Z.to_nat ((y' - y1) * W + (x' - x1)) = Some (g x' y')).
  cut (P (Z.max y1 y2)
         (foldl (λ cd y, foldl (λ cd x, body cd x y) cd (range x1 x2))
                [] (range y1 y2))).
  { replace (Z.max y1 y2) with y2 by lia. intros [Hl Hk]. by split. }
  apply (foldl_range_inv P).
  { split; [cbn; lia|]. intros; lia. }
  intros y cd Hyr [Hlen Hlook].
  pose (Q := λ (x : Z) (cd : list Z),
    Z.of_nat (length cd) = (y - y1) * W + (x - x1)
    ∧ ∀ x' y', x1 ≤ x' < x2 → (y1 ≤ y' < y ∨ (y' = y ∧ x' < x)) →
        cd !! Z.to_nat ((y' - y1) * W + (x' - x1)) = Some (g x' y')).
  assert (Q (Z.max x1 x2)
            (foldl (λ cd x, body cd x y) cd (range x1 x2))) as [HQl HQ].
  { apply (foldl_range_inv Q).
    - split; [lia|]. intros x' y' Hx' [Hy'|[-> ?]]; [by apply Hlook|lia].
    - intros x cd' Hxr [Hlen' Hlook']. rewrite Hbody. split.
      + rewrite length_app. cbn. lia.
      + intros x' y' Hx' Hcase.
        destruct (decide (y' = y ∧ x' = x)) as [[-> ->]|Hne].
        * apply list_lookup_middle. lia.
        * rewrite lookup_app_l; [apply Hlook'; [done|lia]|].
          destruct Hcase as [Hy'|[-> ?]]; [|lia].
          assert ((y' - y1) * W + W ≤ (y - y1) * W) by (subst W; nia).
          assert (0 ≤ (y' - y1) * W) by (subst W; nia).
          lia. }
  replace (Z.max x1 x2) with x2 in * by lia.
  split; [subst W; lia|].
  intros x' y' Hx' Hy'. apply HQ; [done|]. lia.
Qed.

(** ** Copy *)

Lemma copy_selection_spec s img start end_ :
  image s = Some img →
  selection_start s = Some start →
  selection_end s = Some end_ →
  let x1 := Z.min start.1 end_.1 in
  let y1 := Z.min start.2 end_.2 in
  let width := Z.max start.1 end_.1 - x1 + 1 in
  let height := Z.max start.2 end_.2 - y1 + 1 in
  ∃ data,
    copy_selection s
    = (with_clipboard_size (Some (width, height))
         (with_clipboard_data (Some data) s), true)
    ∧ Z.of_nat (length data) = width * height
    ∧ ∀ dx dy, 0 ≤ dx < width → 0 ≤ dy < height →
        data !! Z.to_nat (dy * width + dx)
        = Some (if valid img (x1 + dx) (y1 + dy)
                then pixelIndex img (x1 + dx) (y1 + dy)
                else 0).
Proof.
  intros Himg Hstart Hend x1 y1 width height.
  unfold copy_selection. rewrite Himg, Hstart, Hend.
  eexists. split; [reflexivity|].
  fold x1 y1.
  set (g := λ x y, if valid img x y then pixelIndex img x y else 0).
  edestruct (collect_grid
    (λ cd x y,
       if bool_decide (0 ≤ x < img_width img ∧ 0 ≤ y < img_height img)
       then cd ++ [pixelIndex img x y] else cd ++ [0])
    g x1 (Z.max start.1 end_.1 + 1) y1 (Z.max start.2 end_.2 + 1))
    as [Hlen Hlook].
  { intros cd x y. unfold g, valid. by case_bool_decide. }
  { lia. }
  { lia. }
  split.
  - rewrite Hlen. subst width height. lia.
  - intros dx dy Hdx Hdy.
    specialize (Hlook (x1 + dx) (y1 + dy)).
    replace ((y1 + dy - y1) * (Z.max start.1 end_.1 + 1 - x1)
             + (x1 + dx - x1)) with (dy * width + dx) in Hlook
      by (subst width; lia).
    apply Hlook; subst width height; lia.
Qed.

(** C6: the window's copy answers with the "No Selection" warning and
    changes nothing when either corner of the selection is missing;
    with a selection on a loaded image it stores the normalized
    rectangle row by row, 0 standing for every cell outside the buffer,
    as many cells as the rectangle has, and leaves no selection. *)
Theorem C6_copy_selection s :
  ((selection_start s = None ∨ selection_end s = None) →
     copy_selection s = (s, false)
     ∧ MonkeyIslandFontEditor.copy_selection s
       = (s, MonkeyIslandFontEditor.Warning "No Selection"))
  ∧ (∀ img start end_,
       image s = Some img →
       selection_start s = Some start →
       selection_end s = Some end_ →
       let x1 := Z.min start.1 end_.1 in
       let y1 := Z.min start.2 end_.2 in
       let width := Z.max start.1 end_.1 - x1 + 1 in
       let height := Z.max start.2 end_.2 - y1 + 1 in
       let s' := (MonkeyIslandFontEditor.copy_selection s).1 in
       (MonkeyIslandFontEditor.copy_selection s).2
       = MonkeyIslandFontEditor.Information "Copied"
       ∧ clipboard_size s' = Some (width, height)
       ∧ (∃ data,
            clipboard_data s' = Some data
            ∧ Z.of_nat (length data) = width * height
            ∧ ∀ dx dy, 0 ≤ dx < width → 0 ≤ dy < height →
                data !! Z.to_nat (dy * width + dx)
                = Some (if valid img (x1 + dx) (y1 + dy)
                        then pixelIndex img (x1 + dx) (y1 + dy)
                        else 0))
       ∧ selection_start s' = None
       ∧ selection_end s' = None
       ∧ image s' = Some img).
Proof.
  split.
  - intros Hnone.
    assert (copy_selection s = (s, false)) as Hcopy.
    { unfold copy_selection.
      destruct (image s); [|done].
      destruct Hnone as [-> | ->]; [done|]. by destruct (selection_start s). }
    split; [done|].
    unfold MonkeyIslandFontEditor.copy_selection. by rewrite Hcopy.
  - intros img start end_ Himg Hstart Hend x1 y1 width height s'.
    destruct (copy_selection_spec s img start end_ Himg Hstart Hend)
      as (data & Hcopy & Hlen & Hlook).
    subst s'. unfold MonkeyIslandFontEditor.copy_selection.
    rewrite Hcopy. cbn.
    split_and!; try done.
    exists data. by split_and!.
Qed.

Lemma C6_copy_selection_witness :
  (copy_selection init = (init, false)
   ∧ MonkeyIslandFontEditor.copy_selection init
     = (init, MonkeyIslandFontEditor.Warning "No Selection"))
  ∧ (let s' := (MonkeyIslandFontEditor.copy_selection selecting_canvas).1 in
     (MonkeyIslandFontEditor.copy_selection selecting_canvas).2
     = MonkeyIslandFontEditor.Information "Copied"
     ∧ clipboard_size s' = Some (2, 2)
     ∧ clipboard_data s' = Some [4; 0; 0; 0]
     ∧ selection_start s' = None
     ∧ selection_end s' = None
     ∧ image s' = Some painted).
Proof.
  split.
  - apply (C6_copy_selection init). left. reflexivity.
  - pose proof (proj2 (C6_copy_selection selecting_canvas)
       painted (1, 1) (2, 2) eq_refl eq_refl eq_refl) as H.
    cbv zeta in H.
    destruct H as (Hdlg & Hsize & _ & Hstart & Hend & Himg).
    split_and!; [exact Hdlg|exact Hsize|reflexivity|exact Hstart|
                 exact Hend|exact Himg].
Defined.

(** ** Snapshots *)

Lemma capture_spec img :
  wf_image img →
  Z.of_nat (length (capture img)) = img_height img * img_width img
  ∧ ∀ x y, valid img x y = true →
      capture img !! offset img x y = Some (pixelIndex img x y).
Proof.
  intros (Hw & Hh & _). unfold capture.
  edestruct (collect_grid (λ pd x y, pd ++ [pixelIndex img x y])
               (pixelIndex img) 0 (img_width img) 0 (img_height img))
    as [Hlen Hlook]; [done..|].
  split; [rewrite Hlen; lia|].
  intros x y Hv. apply bool_decide_eq_true_1 in Hv.
  specialize (Hlook x y). unfold offset.
  replace ((y - 0) * (img_width img - 0) + (x - 0))
    with (y * img_width img + x) in Hlook by lia.
  apply Hlook; lia.
Qed.

(** On a well-formed image the snapshot is the buffer itself. *)
Lemma capture_bits img : wf_image img → capture img = img_bits img.
Proof.
  intros Hwf. destruct (capture_spec img Hwf) as [Hlen Hlook].
  pose proof Hwf as (Hw & Hh & Hbits).
  apply (list_eq_same_length _ _
           (Z.to_nat (img_width img * img_height img))); [done|lia|].
  intros k v v' Hk Hv Hv'.
  assert (0 < img_width img) as Hwpos by nia.
  pose proof (Z.mod_pos_bound (Z.of_nat k) (img_width img) Hwpos).
  pose proof (Z.div_mod (Z.of_nat k) (img_width img) ltac:(lia)) as Hdm.
  assert (0 ≤ Z.of_nat k `div` img_width img < img_height img) as Hdiv.
  { split; [apply Z.div_pos; lia|].
    apply Z.div_lt_upper_bound; [done|]. nia. }
  specialize (Hlook (Z.of_nat k `mod` img_width img)
                    (Z.of_nat k `div` img_width img)).
  unfold pixelIndex, valid, offset in Hlook.
  rewrite bool_decide_eq_true_2 in Hlook by lia.
  replace (Z.to_nat (Z.of_nat k `div` img_width img * img_width img
                     + Z.of_nat k `mod` img_width img))
    with k in Hlook by lia.
  rewrite (list_lookup_total_correct _ _ _ Hv') in Hlook.
  specialize (Hlook eq_refl). congruence.
Qed.

Lemma valid_same_size a b x y :
  img_width a = img_width b → img_height a = img_height b →
  valid a x y = valid b x y.
Proof. unfold valid. by intros -> ->. Qed.

(** The effect of the restoring loop, pixel by pixel. *)
Lemma restore_spec img pixel_data :
  wf_image img →
  let img' := restore img (img_width img) (img_height img) pixel_data in
  wf_image img'
  ∧ img_width img' = img_width img
  ∧ img_height img' = img_height img
  ∧ ∀ x y, valid img x y = true →
      pixelIndex img' x y
      = if bool_decide (y * img_width img + x
                        < Z.of_nat (length pixel_data))
        then pixel_data !!! offset img x y
        else pixelIndex img x y.
Proof.
  intros Hwf img'. subst img'. unfold restore.
  pose proof Hwf as (Hw0 & Hh0 & _).
  set (w := img_width img). set (h := img_height img).
  pose (P := λ (y : Z) (st : QImage * Z),
    st.2 = y * w ∧ wf_image st.1
    ∧ img_width st.1 = w ∧ img_height st.1 = h
    ∧ ∀ x' y', valid img x' y' = true →
        pixelIndex st.1 x' y'
        = if bool_decide (y' < y
                          ∧ y' * w + x' < Z.of_nat (length pixel_data))
          then pixel_data !!! offset img x' y'
          else pixelIndex img x' y').
  cut (P (Z.max 0 h)
         (foldl (λ st y, foldl (restore_cell pixel_data y) st (range 0 w))
                (img, 0) (range 0 h))).
  { replace (Z.max 0 h) with h by lia.
    intros (_ & Hwf' & Hw' & Hh' & Hpix). split_and!; [done..|].
    intros x y Hv. rewrite (Hpix x y Hv).
    pose proof Hv as Hv'. apply bool_decide_eq_true_1 in Hv'.
    fold w h in Hv'.
    case_bool_decide; case_bool_decide; try done; lia. }
  apply (foldl_range_inv P).
  { unfold P. cbn. split_and!; [lia|done..|].
    intros x' y' Hv. apply bool_decide_eq_true_1 in Hv.
    rewrite bool_decide_eq_false_2; [done|]. lia. }
  intros y st Hy HP.
  pose (Q := λ (x : Z) (st : QImage * Z),
    st.2 = y * w + x ∧ wf_image st.1
    ∧ img_width st.1 = w ∧ img_height st.1 = h
    ∧ ∀ x' y', valid img x' y' = true →
        pixelIndex st.1 x' y'
        = if bool_decide ((y' < y ∨ (y' = y ∧ x' < x))
                          ∧ y' * w + x' < Z.of_nat (length pixel_data))
          then pixel_data !!! offset img x' y'
          else pixelIndex img x' y').
  cut (Q (Z.max 0 w) (foldl (restore_cell pixel_data y) st (range 0 w))).
  { replace (Z.max 0 w) with w by lia.
    intros (Hidx & Hwf' & Hw' & Hh' & Hpix). unfold P.
    split_and!; [lia|done..|].
    intros x' y' Hv. rewrite (Hpix x' y' Hv).
    pose proof Hv as Hv'. apply bool_decide_eq_true_1 in Hv'.
    fold w h in Hv'.
    case_bool_decide; case_bool_decide; try done; lia. }
  apply (foldl_range_inv Q).
  { destruct HP as (Hidx & Hwf' & Hw' & Hh' & Hpix). unfold Q.
    split_and!; [lia|done..|].
    intros x' y' Hv. rewrite (Hpix x' y' Hv).
    pose proof Hv as Hv'. apply bool_decide_eq_true_1 in Hv'.
    fold w h in Hv'.
    case_bool_decide; case_bool_decide; try done; lia. }
  clear st HP. intros x [im idx] Hx (Hidx & Hwf' & Hw' & Hh' & Hpix).
  cbn in Hidx, Hwf', Hw', Hh', Hpix. subst idx.
  unfold Q, restore_cell. cbn.
  case_bool_decide as Hlen.
  - rewrite setPixel_width, setPixel_height.
    split_and!; [lia|by apply setPixel_wf|done..|].
    intros x' y' Hv.
    rewrite pixelIndex_setPixel;
      [|done|by rewrite (valid_same_size im img)].
    rewrite (Hpix x' y' Hv).
    pose proof Hv as Hv'. apply bool_decide_eq_true_1 in Hv'.
    fold w h in Hv'.
    case_bool_decide as Heq.
    + destruct Heq as [-> ->].
      rewrite bool_decide_eq_true_2 by lia.
      unfold offset. by fold w.
    + case_bool_decide; case_bool_decide; try done; lia.
  - split_and!; [lia|done..|].
    intros x' y' Hv. rewrite (Hpix x' y' Hv).
    pose proof Hv as Hv'. apply bool_decide_eq_true_1 in Hv'.
    fold w h in Hv'.
    case_bool_decide as H1; case_bool_decide as H2; try done.
    + lia.
    + assert (y' = y ∧ x' = x) as [-> ->] by lia. lia.
Qed.

(** Writing back the snapshot of a buffer of the same size gives that
    buffer. *)
Lemma restore_capture a b :
  wf_image a → wf_image b →
  img_width a = img_width b → img_height a = img_height b →
  restore a (img_width a) (img_height a) (capture b) = b.
Proof.
  intros Hwa Hwb Hw Hh.
  destruct (restore_spec a (capture b) Hwa) as (Hwf' & Hw' & Hh' & Hpix).
  destruct (capture_spec b Hwb) as [Hlen Hlook].
  apply image_ext; [done|done|congruence|congruence|].
  intros x y Hv.
  rewrite (valid_same_size _ a) in Hv by done.
  rewrite (Hpix x y Hv).
  pose proof Hv as Hv'. apply bool_decide_eq_true_1 in Hv'.
  rewrite bool_decide_eq_true_2 by (rewrite Hlen, <- Hw, <- Hh; nia).
  rewrite (valid_same_size a b) in Hv by done.
  apply list_lookup_total_correct.
  replace (offset a x y) with (offset b x y)
    by (unfold offset; by rewrite Hw).
  by apply Hlook.
Qed.

(** ** Undo and redo are inverse *)

Lemma write_all_wf writes : ∀ img,
  wf_image img →
  wf_image (write_all img writes)
  ∧ img_width (write_all img writes) = img_width img
  ∧ img_height (write_all img writes) = img_height img.
Proof.
  unfold write_all.
  induction writes as [|[[x y] c] writes IH]; intros img Hwf; [done|].
  cbn. destruct (IH (setPixel img x y c)) as (? & Hw & Hh);
    [by apply setPixel_wf|].
  by rewrite Hw, Hh, setPixel_width, setPixel_height.
Qed.

Lemma final_wf edits : ∀ img,
  wf_image img →
  wf_image (final img edits)
  ∧ img_width (final img edits) = img_width img
  ∧ img_height (final img edits) = img_height img.
Proof.
  unfold final.
  induction edits as [|e edits IH]; intros img Hwf; [done|].
  cbn. destruct (write_all_wf e.2 img Hwf) as (Hwf1 & Hw1 & Hh1).
  destruct (IH _ Hwf1) as (? & Hw & Hh).
  by rewrite Hw, Hh, Hw1, Hh1.
Qed.

Lemma final_snoc img edits e :
  final img (edits ++ [e]) = write_all (final img edits) e.2.
Proof. unfold final. by rewrite foldl_snoc. Qed.

Lemma snaps_snoc edits : ∀ img e,
  snaps img (edits ++ [e]) = snaps img edits ++ [entry e.1 (final img edits)].
Proof.
  induction edits as [|e' edits IH]; intros img e; [done|].
  cbn. by rewrite IH.
Qed.

Lemma currents_snoc edits : ∀ img e,
  currents img (edits ++ [e])
  = currents img edits ++ [write_all (final img edits) e.2].
Proof.
  induction edits as [|e' edits IH]; intros img e; [done|].
  cbn. by rewrite IH.
Qed.

Lemma snaps_length edits : ∀ img, length (snaps img edits) = length edits.
Proof. induction edits as [|e edits IH]; intros img; cbn; by rewrite ?IH. Qed.

(** After the edits the undo stack ends with their snapshots. *)
Lemma protected_edits_spec edits : ∀ s img,
  image s = Some img →
  Z.of_nat (length edits) ≤ max_history s →
  let s1 := foldl protected_edit s edits in
  image s1 = Some (final img edits)
  ∧ max_history s1 = max_history s
  ∧ ∃ older, undo_stack s1 = older ++ snaps img edits.
Proof.
  induction edits as [|e edits IH] using rev_ind; intros s img Himg Hn s1.
  { subst s1. cbn. split_and!; [done..|]. exists (undo_stack s).
    by rewrite app_nil_r. }
  subst s1. rewrite foldl_snoc, final_snoc, snaps_snoc.
  rewrite length_app in Hn. cbn in Hn.
  destruct (IH s img Himg ltac:(lia)) as (Himg1 & Hmax1 & older & Hstack1).
  set (s1 := foldl protected_edit s edits) in *.
  unfold protected_edit, save_state. rewrite Himg1. cbn.
  fold (entry e.1 (final img edits)).
  case_bool_decide as Hfull; cbn; rewrite Himg1; cbn;
    (split_and!; [done..|]).
  - rewrite Hstack1 in *. rewrite !length_app, snaps_length in Hfull.
    cbn in Hfull.
    destruct older as [|o older]; [cbn in Hfull; lia|].
    exists older. cbn. by rewrite drop_0, <- app_assoc.
  - exists older. by rewrite Hstack1, <- app_assoc.
Qed.

(** [n] undos walk back through the snapshots of [n] edits. *)
Lemma undo_n_spec edits : ∀ s img older,
  wf_image img →
  image s = Some (final img edits) →
  undo_stack s = older ++ snaps img edits →
  let s' := undo_n (length edits) s in
  image s' = Some img
  ∧ undo_stack s' = older
  ∧ redo_stack s'
    = redo_stack s ++ reverse (entry "Current" <$> currents img edits).
Proof.
  induction edits as [|e edits IH] using rev_ind;
    intros s img older Hwf Himg Hstack s'.
  { subst s'. cbn in *. rewrite app_nil_r in *. done. }
  subst s'. rewrite length_app, Nat.add_comm. cbn [length Nat.add undo_n].
  rewrite snaps_snoc, app_assoc in Hstack.
  rewrite final_snoc in Himg.
  destruct (final_wf edits img Hwf) as (Hwfk & Hwk & Hhk).
  destruct (write_all_wf e.2 _ Hwfk) as (Hwfc & Hwc & Hhc).
  set (cur := write_all (final img edits) e.2) in *.
  assert (undo s =
    (with_image (Some (final img edits))
       (with_undo_stack (older ++ snaps img edits)
          (with_redo_stack (redo_stack s ++ [entry "Current" cur]) s)),
     true)) as Hundo.
  { unfold undo. rewrite Himg, Hstack. unfold entry at 1.
    rewrite pop_snoc. cbn.
    rewrite bool_decide_eq_true_2 by (split; congruence).
    by rewrite restore_capture by (done || congruence). }
  rewrite Hundo. cbn [fst].
  match goal with |- context [undo_n _ ?s2] =>
    destruct (IH s2 img older Hwf eq_refl eq_refl) as (Hi & Hu & Hr)
  end.
  split_and!; [done..|].
  rewrite Hr. cbn. rewrite currents_snoc, fmap_app, reverse_app.
  cbn. by rewrite <- app_assoc.
Qed.

(** [n] redos walk forward again. *)
Lemma redo_n_spec edits : ∀ s img older,
  wf_image img →
  image s = Some img →
  redo_stack s
  = older ++ reverse (entry "Current" <$> currents img edits) →
  let s' := redo_n (length edits) s in
  image s' = Some (final img edits)
  ∧ redo_stack s' = older.
Proof.
  induction edits as [|e edits IH]; intros s img older Hwf Himg Hstack s'.
  { subst s'. cbn in *. by rewrite app_nil_r in Hstack. }
  subst s'. cbn [length redo_n].
  change (currents img (e :: edits))
    with (write_all img e.2 :: currents (write_all img e.2) edits) in Hstack.
  rewrite fmap_cons, reverse_cons, app_assoc in Hstack.
  destruct (write_all_wf e.2 img Hwf) as (Hwf1 & Hw1 & Hh1).
  set (next := write_all img e.2) in *.
  assert (redo s =
    (with_image (Some next)
       (with_redo_stack
          (older ++ reverse (entry "Current" <$> currents next edits))
          (with_undo_stack (undo_stack s ++ [entry "Current" img]) s)),
     true)) as Hredo.
  { unfold redo. rewrite Himg, Hstack. unfold entry at 2.
    rewrite pop_snoc. cbn.
    rewrite bool_decide_eq_true_2 by (split; congruence).
    by rewrite restore_capture by (done || congruence). }
  rewrite Hredo. cbn [fst].
  match goal with |- context [redo_n _ ?s2] =>
    destruct (IH s2 next older Hwf1 eq_refl eq_refl) as (Hi & Hr)
  end.
  done.
Qed.

(** C9: after [n] mutations, each right after its own [save_state], with
    [n] at most [max_history], [n] undos give back the buffer from
    before the first of them, and [n] redos after that give back the
    buffer from after the last. *)
Theorem C9_undo_redo_inverse s img edits :
  image s = Some img →
  wf_image img →
  Z.of_nat (length edits) ≤ max_history s →
  let n := length edits in
  let s1 := foldl protected_edit s edits in
  image (undo_n n s1) = Some img
  ∧ image (redo_n n (undo_n n s1)) = image s1.
Proof.
  intros Himg Hwf Hn n s1.
  destruct (protected_edits_spec edits s img Himg Hn)
    as (Himg1 & _ & older & Hstack1).
  fold s1 in Himg1, Hstack1.
  destruct (undo_n_spec edits s1 img older Hwf Himg1 Hstack1)
    as (Himg2 & _ & Hredo2).
  fold n in Himg2, Hredo2.
  split; [done|].
  destruct (redo_n_spec edits (undo_n n s1) img (redo_stack s1)
              Hwf Himg2 Hredo2) as [Himg3 _].
  fold n in Himg3. by rewrite Himg3, Himg1.
Qed.

Lemma C9_undo_redo_inverse_witness :
  let s1 := foldl protected_edit painted_canvas two_strokes in
  image (undo_n 2 s1) = Some painted
  ∧ image (redo_n 2 (undo_n 2 s1)) = Some (mkQImage 2 2 [9; 9; 3; 7]).
Proof.
  apply (C9_undo_redo_inverse painted_canvas painted two_strokes).
  - reflexivity.
  - unfold wf_image. cbn. split; [lia|]. split; [lia|]. reflexivity.
  - vm_compute. discriminate.
Defined.

(** ** Paste *)

Lemma with_image_id s img : image s = Some img → with_image (Some img) s = s.
Proof. destruct s. cbn. by intros ->. Qed.

Lemma save_state_frame s description :
  image (save_state s description) = image s
  ∧ clipboard_data (save_state s description) = clipboard_data s
  ∧ clipboard_size (save_state s description) = clipboard_size s
  ∧ paste_mode (save_state s description) = paste_mode s
  ∧ paste_position (save_state s description) = paste_position s.
Proof.
  unfold save_state. destruct (image s) eqn:Himg; [|done].
  cbn. by case_bool_decide.
Qed.

(** The two loops of [commit_paste] on a loaded image: they never raise
    and they change the image only. *)
Lemma paste_loops_spec s0 img px py cw ch payload :
  image s0 = Some img →
  wf_image img →
  ∃ img',
    for_each (range 0 ch)
      (λ s dy, for_each (range 0 cw) (paste_cell px py cw payload dy) s) s0
    = Ok (with_image (Some img') s0)
    ∧ wf_image img'
    ∧ img_width img' = img_width img
    ∧ img_height img' = img_height img
    ∧ ∀ x y, valid img x y = true →
        pixelIndex img' x y
        = if bool_decide
               ((px ≤ x < px + cw ∧ py ≤ y < py + ch)
                ∧ (y - py) * cw + (x - px) < Z.of_nat (length payload))
          then payload !!! Z.to_nat ((y - py) * cw + (x - px))
          else pixelIndex img x y.
Proof.
  intros Himg Hwf.
  pose (R := λ (region : Z → Z → Prop) (st : Canvas),
    ∃ im, st = with_image (Some im) s0
      ∧ wf_image im
      ∧ img_width im = img_width img
      ∧ img_height im = img_height img
      ∧ ∀ x y, valid img x y = true →
          (region x y
           ∧ (y - py) * cw + (x - px) < Z.of_nat (length payload) →
           pixelIndex im x y
           = payload !!! Z.to_nat ((y - py) * cw + (x - px)))
          ∧ (¬ (region x y
                ∧ (y - py) * cw + (x - px) < Z.of_nat (length payload)) →
             pixelIndex im x y = pixelIndex img x y)).
  pose (P := λ (dy : Z), R (λ x y, px ≤ x < px + cw ∧ py ≤ y < py + dy)).
  destruct (for_each_range_inv P
    (λ s dy, for_each (range 0 cw) (paste_cell px py cw payload dy) s)
    0 ch s0) as (s' & Hrun & im & -> & Hwf' & Hw' & Hh' & Hpix).
  { exists img. split; [by rewrite with_image_id|].
    split_and!; [done..|]. intros x y Hv. split; [lia|done]. }
  { intros dy st Hdy HP.
    pose (Q := λ (dx : Z),
      R (λ x y, px ≤ x < px + cw
                ∧ (py ≤ y < py + dy ∨ (y = py + dy ∧ x < px + dx)))).
    destruct (for_each_range_inv Q (paste_cell px py cw payload dy)
                0 cw st) as (st' & Hrow & HQ).
    { destruct HP as (im & -> & ? & ? & ? & Hpix).
      exists im. split_and!; [done..|].
      intros x y Hv. destruct (Hpix x y Hv) as [Hin Hout].
      split; intros ?; [apply Hin|apply Hout]; lia. }
    { clear st HP. intros dx st Hdx (im & -> & Hwfi & Hwi & Hhi & Hpix).
      unfold paste_cell. cbn.
      case_bool_decide as Hx0.
      - case_bool_decide as Hguard.
        + eexists. split; [reflexivity|].
          exists (setPixel im (px + dx) (py + dy)
                    (payload !!! Z.to_nat (dy * cw + dx))).
          rewrite setPixel_width, setPixel_height.
          split_and!; [done|by apply setPixel_wf|done..|].
          intros x y Hv. destruct (Hpix x y Hv) as [Hin Hout].
          rewrite pixelIndex_setPixel;
            [|done|by rewrite (valid_same_size im img)].
          case_bool_decide as Heq.
          * destruct Heq as [-> ->]. split; [|lia].
            intros _. f_equal. lia.
          * split; intros ?; [apply Hin|apply Hout]; lia.
        + eexists. split; [reflexivity|].
          exists im. split_and!; [done..|].
          intros x y Hv. destruct (Hpix x y Hv) as [Hin Hout].
          pose proof Hv as Hv'. apply bool_decide_eq_true_1 in Hv'.
          split; intros Hc.
          * apply Hin.
            destruct (decide (y = py + dy ∧ x = px + dx)) as [[-> ->]|?];
              [|lia].
            exfalso. apply Hguard. rewrite Hwi, Hhi.
            split_and!; try lia.
          * apply Hout. lia.
      - eexists. split; [reflexivity|].
        exists im. split_and!; [done..|].
        intros x y Hv. destruct (Hpix x y Hv) as [Hin Hout].
        pose proof Hv as Hv'. apply bool_decide_eq_true_1 in Hv'.
        split; intros ?; [apply Hin|apply Hout]; lia. }
    exists st'. split; [done|].
    destruct HQ as (im & -> & ? & ? & ? & Hpix).
    exists im. split_and!; [done..|].
    intros x y Hv. destruct (Hpix x y Hv) as [Hin Hout].
    split; intros ?; [apply Hin|apply Hout]; lia. }
  exists im. split_and!; [done..|].
  intros x y Hv. destruct (Hpix x y Hv) as [Hin Hout].
  case_bool_decide; [apply Hin|apply Hout]; lia.
Qed.

Lemma save_state_pushes s img description :
  image s = Some img →
  0 < max_history s →
  ∃ older,
    undo_stack (save_state s description) = older ++ [entry description img].
Proof.
  intros Himg Hmax. unfold save_state. rewrite Himg. cbn.
  fold (entry description img).
  case_bool_decide as Hfull; cbn; [|by eexists].
  destruct (undo_stack s) as [|o older] eqn:Hstack.
  { cbn in Hfull. lia. }
  by exists older.
Qed.



(** ** What every reachable canvas satisfies *)

Lemma new_QImage_wf w h : wf_image (new_QImage w h).
Proof.
  unfold new_QImage, wf_image. case_bool_decide; cbn; [|done].
  rewrite length_replicate. lia.
Qed.

Lemma copy_pixel_data_wf img width height pixel_data :
  wf_image img → wf_image (copy_pixel_data img width height pixel_data).
Proof.
  intros Hwf. unfold copy_pixel_data.
  change (Z.max 0 height) with (Z.max 0 height).
  apply (foldl_range_inv (λ _ im, wf_image im)); [done|].
  intros y im _ Him.
  apply (foldl_range_inv (λ _ im, wf_image im)); [done|].
  intros x im' _ Him'. case_bool_decide; [by apply setPixel_wf|done].
Qed.

Lemma canvas_inv_init : canvas_inv init.
Proof.
  unfold canvas_inv. cbn. split_and!; try done.
  intros [[? ?]|[? ?]]; done.
Qed.

Lemma load_image_inv s pil_image :
  canvas_inv s → canvas_inv (load_image s pil_image).
Proof.
  intros (Himg & Hsel & Hclip & Hpaste). unfold load_image.
  destruct (pil_size pil_image) as [w h].
  destruct (pil_mode pil_image); unfold canvas_inv; cbn;
    (split_and!; [|by eauto| |done]).
  - intros img [= <-]. apply copy_pixel_data_wf, new_QImage_wf.
  - intros payload Hp. destruct (Hclip payload Hp) as [_ ?]. by eauto.
  - intros img [= <-]. apply copy_pixel_data_wf, new_QImage_wf.
  - intros payload Hp. destruct (Hclip payload Hp) as [_ ?]. by eauto.
Qed.

(** A step that touches nothing but the image, and keeps one loaded. *)
Lemma canvas_inv_image s s' :
  canvas_inv s →
  (∀ img', image s' = Some img' → wf_image img') →
  (is_Some (image s) → is_Some (image s')) →
  selection_start s' = selection_start s →
  selection_end s' = selection_end s →
  clipboard_data s' = clipboard_data s →
  clipboard_size s' = clipboard_size s →
  paste_mode s' = paste_mode s →
  paste_position s' = paste_position s →
  canvas_inv s'.
Proof.
  intros (Himg & Hsel & Hclip & Hpaste) Hwf Hsome Hs He Hd Hz Hm Hp.
  unfold canvas_inv. rewrite Hs, He, Hd, Hz, Hm, Hp.
  split_and!; [done|by auto| |done].
  intros payload Hpl. destruct (Hclip payload Hpl) as [? ?]. by auto.
Qed.

Lemma draw_pixel_inv s pos s' :
  draw_pixel s pos = Ok s' → canvas_inv s → canvas_inv s'.
Proof.
  unfold draw_pixel. intros H Hinv.
  destruct (image s) as [img|] eqn:Himg; [|by simplify_eq].
  case_bool_decide; [done|].
  case_bool_decide; simplify_eq; [|done].
  apply (canvas_inv_image s); try done; cbn.
  intros img' [= <-]. apply setPixel_wf. by apply Hinv.
Qed.

Lemma save_state_canvas_inv s description :
  canvas_inv s → canvas_inv (save_state s description).
Proof.
  intros Hinv. unfold save_state.
  destruct (image s) as [img|] eqn:Himg; [|done].
  cbn. case_bool_decide;
    (apply (canvas_inv_image s); [done| |done..]);
    cbn; rewrite Himg; intros img' [= <-]; by apply Hinv.
Qed.

Lemma undo_canvas_inv s : canvas_inv s → canvas_inv (undo s).1.
Proof.
  intros Hinv. unfold undo.
  destruct (image s) as [img|] eqn:Himg; [|done].
  destruct (pop (undo_stack s)) as [[rest [[[pd d] w] h]]|]; [|done].
  assert (wf_image img) as Hwf by by apply Hinv.
  case_bool_decide; cbn.
  - apply (canvas_inv_image s); try done; cbn.
    intros img' [= <-]. by destruct (restore_spec img pd Hwf) as [? _].
  - apply (canvas_inv_image s); try done; cbn.
    intros img' Hi. by apply Hinv.
Qed.

Lemma redo_canvas_inv s : canvas_inv s → canvas_inv (redo s).1.
Proof.
  intros Hinv. unfold redo.
  destruct (image s) as [img|] eqn:Himg; [|done].
  destruct (pop (redo_stack s)) as [[rest [[[pd d] w] h]]|]; [|done].
  assert (wf_image img) as Hwf by by apply Hinv.
  case_bool_decide; cbn.
  - apply (canvas_inv_image s); try done; cbn.
    intros img' [= <-]. by destruct (restore_spec img pd Hwf) as [? _].
  - apply (canvas_inv_image s); try done; cbn.
    intros img' Hi. by apply Hinv.
Qed.

Lemma copy_selection_inv s : canvas_inv s → canvas_inv (copy_selection s).1.
Proof.
  intros Hinv.
  destruct (image s) as [img|] eqn:Himg;
    [|by unfold copy_selection; rewrite Himg].
  destruct (selection_start s) as [start|] eqn:Hstart;
    [|by unfold copy_selection; rewrite Himg, Hstart].
  destruct (selection_end s) as [end_|] eqn:Hend;
    [|by unfold copy_selection; rewrite Himg, Hstart, Hend].
  destruct (copy_selection_spec s img start end_ Himg Hstart Hend)
    as (data & -> & Hlen & _).
  destruct Hinv as (Hwf & Hsel & Hclip & Hpaste).
  unfold canvas_inv. cbn. split_and!; [done|done| |].
  - intros payload [= <-]. split; [by rewrite Himg|].
    eexists _, _. split; [done|]. split_and!; [lia|lia|done].
  - intros Hmode. destruct (Hpaste Hmode) as [_ ?]. by split.
Qed.

Lemma start_paste_mode_inv s :
  canvas_inv s → canvas_inv (start_paste_mode s).1.
Proof.
  intros Hinv. unfold start_paste_mode.
  destruct (clipboard_data s) as [[|d data]|] eqn:Hdata; cbn; try done.
  case_bool_decide; cbn; [|done].
  destruct Hinv as (Hwf & Hsel & Hclip & Hpaste).
  unfold canvas_inv. cbn. split_and!; [done..|].
  intros _. rewrite Hdata. by split.
Qed.

Lemma commit_paste_canvas_inv s s' ok :
  commit_paste s = Ok (s', ok) → canvas_inv s → canvas_inv s'.
Proof.
  unfold commit_paste. intros H Hinv.
  destruct (paste_mode s); [|by simplify_eq].
  destruct (clipboard_data s) as [[|d data]|] eqn:Hdata; try by simplify_eq.
  destruct (paste_position s) as [[px py]|]; [|by simplify_eq].
  pose proof (save_state_canvas_inv s "Paste" Hinv) as Hinv0.
  destruct (save_state_frame s "Paste") as (Hi & Hd & _).
  set (s0 := save_state s "Paste") in *.
  destruct (clipboard_size s0) as [[cw ch]|]; [|done].
  destruct Hinv0 as (Hwf & Hsel & Hclip & Hpaste).
  destruct (Hclip (d :: data)) as [[img Himg] _]; [congruence|].
  destruct (paste_loops_spec s0 img px py cw ch (d :: data) Himg)
    as (img' & Hrun & Hwf' & _); [by apply Hwf|].
  rewrite Hrun in H. cbn in H. simplify_eq.
  unfold canvas_inv. cbn. split_and!; [|by auto| |done].
  - by intros ? [= <-].
  - intros payload Hp. destruct (Hclip payload Hp) as [_ ?]. by split.
Qed.

Lemma mousePressEvent_inv s event s' :
  mousePressEvent s event = Ok s' → canvas_inv s → canvas_inv s'.
Proof.
  unfold mousePressEvent. intros H Hinv.
  destruct (image s) as [img|] eqn:Himg; [|by simplify_eq].
  destruct (ev_left event); [|by simplify_eq].
  destruct (paste_mode s) eqn:Hmode.
  { case_bool_decide; simplify_eq.
    destruct Hinv as (Hwf & Hsel & Hclip & Hpaste).
    unfold canvas_inv. cbn. rewrite Himg, Hmode.
    split_and!; [by rewrite <- Himg|by auto| |].
    - intros payload Hp. destruct (Hclip payload Hp) as [_ ?]. by split.
    - intros _. destruct (Hpaste Hmode) as [? _]. by split. }
  destruct (_ || _).
  { case_bool_decide; simplify_eq.
    destruct Hinv as (Hwf & Hsel & Hclip & Hpaste).
    unfold canvas_inv. cbn. rewrite Himg, Hmode.
    split_and!; [by rewrite <- Himg|by auto| |done].
    intros payload Hp. destruct (Hclip payload Hp) as [_ ?]. by split. }
  case_bool_decide; [|by simplify_eq].
  apply draw_pixel_inv in H; [done|].
  apply (canvas_inv_image (save_state s "Draw"));
    [by apply save_state_canvas_inv| |done..].
  cbn. by apply save_state_canvas_inv.
Qed.

Lemma mouseMoveEvent_inv s event s' :
  mouseMoveEvent s event = Ok s' → canvas_inv s → canvas_inv s'.
Proof.
  unfold mouseMoveEvent. intros H Hinv.
  destruct (image s) as [img|] eqn:Himg; [|by simplify_eq].
  case_bool_decide; [done|]. cbn in H.
  pose proof Hinv as (Hwf & Hsel & Hclip & Hpaste).
  destruct (selecting s).
  { simplify_eq. unfold canvas_inv. cbn. rewrite Himg.
    split_and!; [by rewrite <- Himg|by auto| |done].
    intros payload Hp. destruct (Hclip payload Hp) as [_ ?]. by split. }
  destruct (paste_dragging s).
  { simplify_eq. unfold canvas_inv. cbn. rewrite Himg.
    split_and!; [by rewrite <- Himg|by auto| |].
    - intros payload Hp. destruct (Hclip payload Hp) as [_ ?]. by split.
    - intros Hmode. destruct (Hpaste Hmode) as [? _]. by split. }
  destruct (drawing s).
  { apply draw_pixel_inv in H; [done|].
    by apply (canvas_inv_image s). }
  simplify_eq. by apply (canvas_inv_image s).
Qed.

Lemma run_canvas_inv o s s' : run o s = Ok s' → canvas_inv s → canvas_inv s'.
Proof.
  destruct o; cbn; intros H Hinv; pose proof Hinv as (Hwf0 & _).
  - simplify_eq. by apply load_image_inv.
  - by eapply mousePressEvent_inv.
  - by eapply mouseMoveEvent_inv.
  - simplify_eq. unfold mouseReleaseEvent.
    destruct (ev_left event); [|done]. by apply (canvas_inv_image s).
  - by eapply draw_pixel_inv.
  - simplify_eq. by apply (canvas_inv_image s).
  - simplify_eq. by apply (canvas_inv_image s).
  - simplify_eq. by apply (canvas_inv_image s).
  - simplify_eq. by apply copy_selection_inv.
  - simplify_eq. destruct Hinv as (Hwf & Hsel & Hclip & Hpaste).
    unfold canvas_inv. cbn. split_and!; [done| |done..].
    by intros [[? ?]|[? ?]].
  - simplify_eq. unfold set_edit_mode.
    case_bool_decide; [|done].
    case_bool_decide; [|by apply (canvas_inv_image s)].
    destruct Hinv as (Hwf & Hsel & Hclip & Hpaste).
    unfold canvas_inv. cbn. split_and!; [done| |done..].
    by intros [[? ?]|[? ?]].
  - simplify_eq. by apply start_paste_mode_inv.
  - destruct (commit_paste s) as [[s1 ok]|e] eqn:Hc; [|done].
    cbn in H. simplify_eq. by eapply commit_paste_canvas_inv.
  - simplify_eq. destruct Hinv as (Hwf & Hsel & Hclip & Hpaste).
    unfold canvas_inv. cbn. by split_and!.
  - simplify_eq. by apply save_state_canvas_inv.
  - simplify_eq. by apply undo_canvas_inv.
  - simplify_eq. by apply redo_canvas_inv.
Qed.

Lemma reachable_canvas_inv s : reachable s → canvas_inv s.
Proof.
  induction 1 as [|s o s' _ IH Hrun].
  - apply canvas_inv_init.
  - by eapply run_canvas_inv.
Qed.

Lemma session_reachable ops s :
  run_all ops init = Ok s → reachable (session ops).
Proof.
  intros Hrun. unfold session. rewrite Hrun.
  apply (run_all_reachable ops init); [constructor|done].
Qed.

Lemma dragging_session_reachable : reachable (session dragging_session).
Proof. eapply session_reachable. vm_compute. reflexivity. Qed.

Lemma pasting_session_reachable : reachable (session pasting_session).
Proof. eapply session_reachable. vm_compute. reflexivity. Qed.

(** ** Copy and paste in reachable states *)

(** [commit_paste] with an open session on a loaded image whose payload
    fills its announced size. *)
Lemma commit_paste_loaded s img payload px py cw ch :
  image s = Some img →
  wf_image img →
  paste_mode s = true →
  clipboard_data s = Some payload →
  payload ≠ [] →
  clipboard_size s = Some (cw, ch) →
  paste_position s = Some (px, py) →
  cw * ch ≤ Z.of_nat (length payload) →
  ∃ img',
    commit_paste s
    = Ok (with_paste_position None
            (with_paste_mode false
               (with_image (Some img') (save_state s "Paste"))),
          true)
    ∧ wf_image img'
    ∧ img_width img' = img_width img
    ∧ img_height img' = img_height img
    ∧ (∀ dx dy,
         0 ≤ dx < cw → 0 ≤ dy < ch →
         valid img (px + dx) (py + dy) = true →
         pixelIndex img' (px + dx) (py + dy)
         = payload !!! Z.to_nat (dy * cw + dx))
    ∧ (∀ x y,
         valid img x y = true →
         ¬ (px ≤ x < px + cw ∧ py ≤ y < py + ch) →
         pixelIndex img' x y = pixelIndex img x y).
Proof.
  intros Himg Hwf Hmode Hdata Hne Hsize Hpos Hlen.
  destruct payload as [|d data]; [done|].
  destruct (save_state_frame s "Paste") as (Hi & _ & Hs & _ & _).
  destruct (paste_loops_spec (save_state s "Paste") img px py cw ch
              (d :: data)) as (img' & Hrun & Hwf' & Hw & Hh & Hpix);
    [congruence|done|].
  exists img'. split_and!; [|done..| |].
  - unfold commit_paste. rewrite Hmode, Hdata, Hpos, Hs, Hsize.
    by rewrite Hrun.
  - intros dx dy Hdx Hdy Hv. rewrite (Hpix _ _ Hv).
    rewrite bool_decide_eq_true_2.
    + f_equal. lia.
    + split; [lia|]. nia.
  - intros x y Hv Hout. rewrite (Hpix _ _ Hv).
    rewrite bool_decide_eq_false_2; [done|]. tauto.
Qed.

(** X1: in a reachable state both corners of a selection are only ever
    set on a loaded image, so the window's copy cannot fail there: it
    stores the normalized rectangle row by row, 0 for every cell
    outside the buffer, and clears the selection. *)
Theorem copy_selection_reachable s start end_ :
  reachable s →
  selection_start s = Some start →
  selection_end s = Some end_ →
  let x1 := Z.min start.1 end_.1 in
  let y1 := Z.min start.2 end_.2 in
  let width := Z.max start.1 end_.1 - x1 + 1 in
  let height := Z.max start.2 end_.2 - y1 + 1 in
  let s' := (MonkeyIslandFontEditor.copy_selection s).1 in
  ∃ img data,
    image s = Some img
    ∧ (MonkeyIslandFontEditor.copy_selection s).2
      = MonkeyIslandFontEditor.Information "Copied"
    ∧ clipboard_size s' = Some (width, height)
    ∧ clipboard_data s' = Some data
    ∧ Z.of_nat (length data) = width * height
    ∧ (∀ dx dy, 0 ≤ dx < width → 0 ≤ dy < height →
         data !! Z.to_nat (dy * width + dx)
         = Some (if valid img (x1 + dx) (y1 + dy)
                 then pixelIndex img (x1 + dx) (y1 + dy)
                 else 0))
    ∧ selection_start s' = None
    ∧ selection_end s' = None
    ∧ image s' = Some img.
Proof.
  intros Hreach Hstart Hend x1 y1 width height s'.
  destruct (reachable_canvas_inv s Hreach) as (_ & Hsel & _).
  destruct Hsel as [img Himg]; [left; by rewrite Hstart|].
  destruct (copy_selection_spec s img start end_ Himg Hstart Hend)
    as (data & Hcopy & Hlen & Hlook).
  exists img, data. subst s'.
  unfold MonkeyIslandFontEditor.copy_selection. rewrite Hcopy. cbn.
  by split_and!.
Qed.

Lemma copy_selection_reachable_witness :
  ∃ data,
    clipboard_data
      (MonkeyIslandFontEditor.copy_selection (session dragging_session)).1
    = Some data
    ∧ Z.of_nat (length data) = 9
    ∧ data !! 0%nat = Some 1
    ∧ data !! 8%nat = Some 0.
Proof.
  destruct (copy_selection_reachable (session dragging_session)
              (0, 0) (2, 2) dragging_session_reachable)
    as (img & data & Himg & _ & _ & Hdata & Hlen & Hlook & _).
  - reflexivity.
  - reflexivity.
  - exists data. split; [exact Hdata|]. split; [exact Hlen|].
    injection Himg as <-. split.
    + apply (Hlook 0 0); cbn; lia.
    + apply (Hlook 2 2); cbn; lia.
Defined.



(** ** History entries fit the buffer *)

Lemma same_size_refl a : same_size a a.
Proof. by destruct a. Qed.

Lemma same_size_trans a b c : same_size a b → same_size b c → same_size a c.
Proof.
  destruct a, b, c; cbn; try done. intros [? ?] [? ?]. split; congruence.
Qed.

Lemma same_frame_refl s : same_frame s s.
Proof. split; [apply same_history_refl|apply same_size_refl]. Qed.

Lemma same_frame_trans s1 s2 s3 :
  same_frame s1 s2 → same_frame s2 s3 → same_frame s1 s3.
Proof.
  intros [? ?] [? ?].
  split; [by eapply same_history_trans|by eapply same_size_trans].
Qed.

Lemma for_each_rel {A} (R : Canvas → Canvas → Prop)
    (body : Canvas → A → result Canvas) l :
  (∀ s, R s s) →
  (∀ s1 s2 s3, R s1 s2 → R s2 s3 → R s1 s3) →
  (∀ s a s', body s a = Ok s' → R s s') →
  ∀ s s', for_each l body s = Ok s' → R s s'.
Proof.
  intros Hrefl Htrans Hbody.
  induction l as [|a l IH]; intros s s' H; simpl in H.
  - injection H as <-. apply Hrefl.
  - destruct (body s a) as [s1|e] eqn:Hb; [|done].
    eapply Htrans; [by eapply Hbody|by apply IH].
Qed.

Lemma draw_pixel_same_frame s pos s' :
  draw_pixel s pos = Ok s' → same_frame s s'.
Proof.
  intros H. split; [by eapply draw_pixel_same_history|].
  unfold draw_pixel in H.
  destruct (image s) as [img|] eqn:Himg; [|by simplify_eq; rewrite Himg].
  case_bool_decide; [done|].
  case_bool_decide; simplify_eq; cbn.
  - by rewrite setPixel_width, setPixel_height.
  - by rewrite Himg.
Qed.

Lemma paste_cell_same_frame px py cw data dy s dx s' :
  paste_cell px py cw data dy s dx = Ok s' → same_frame s s'.
Proof.
  intros H. split; [by eapply paste_cell_same_history|].
  unfold paste_cell in H.
  case_bool_decide; [|simplify_eq; apply same_size_refl].
  destruct (image s) as [img|] eqn:Himg; [|done].
  case_bool_decide; simplify_eq; cbn.
  - by rewrite setPixel_width, setPixel_height.
  - by rewrite Himg.
Qed.

Lemma history_fits_frame s s' :
  same_frame s s' → history_fits s → history_fits s'.
Proof.
  intros [(Hu & Hr & _) Hsize]. unfold history_fits.
  rewrite Hu, Hr.
  destruct (image s) as [img|], (image s') as [img'|]; cbn in Hsize;
    try done.
  destruct Hsize as [Hw Hh]. unfold entry_fits. by rewrite Hw, Hh.
Qed.

Lemma save_state_fits s description :
  history_fits s → history_fits (save_state s description).
Proof.
  unfold save_state. destruct (image s) as [img|] eqn:Himg; [|done].
  unfold history_fits. rewrite Himg. intros [Hu _].
  assert (Forall (entry_fits img)
            (undo_stack s
             ++ [(capture img, description, img_width img, img_height img)]))
    as Hall.
  { apply Forall_app. split; [done|]. by apply Forall_singleton. }
  cbn. case_bool_decide; cbn; rewrite Himg; (split; [|done]);
    [by apply Forall_drop|done].
Qed.

Lemma undo_fits s :
  canvas_inv s → history_fits s → history_fits (undo s).1.
Proof.
  intros Hinv. unfold undo.
  destruct (image s) as [img|] eqn:Himg; [|done].
  destruct (pop (undo_stack s)) as [[rest [[[pd d] w] h]]|] eqn:Hpop;
    [|done].
  apply pop_Some in Hpop.
  unfold history_fits. rewrite Himg, Hpop. intros [Hu Hr].
  apply Forall_app in Hu as [Hrest _].
  assert (Forall (entry_fits img)
            (redo_stack s
             ++ [(capture img, "Current", img_width img, img_height img)]))
    as Hall.
  { apply Forall_app. split; [done|]. by apply Forall_singleton. }
  case_bool_decide; cbn; [|by rewrite Himg].
  destruct (restore_spec img pd) as (_ & Hw & Hh & _); [by apply Hinv|].
  unfold entry_fits. by rewrite Hw, Hh.
Qed.

Lemma redo_fits s :
  canvas_inv s → history_fits s → history_fits (redo s).1.
Proof.
  intros Hinv. unfold redo.
  destruct (image s) as [img|] eqn:Himg; [|done].
  destruct (pop (redo_stack s)) as [[rest [[[pd d] w] h]]|] eqn:Hpop;
    [|done].
  apply pop_Some in Hpop.
  unfold history_fits. rewrite Himg, Hpop. intros [Hu Hr].
  apply Forall_app in Hr as [Hrest _].
  assert (Forall (entry_fits img)
            (undo_stack s
             ++ [(capture img, "Current", img_width img, img_height img)]))
    as Hall.
  { apply Forall_app. split; [done|]. by apply Forall_singleton. }
  case_bool_decide; cbn; [|by rewrite Himg].
  destruct (restore_spec img pd) as (_ & Hw & Hh & _); [by apply Hinv|].
  unfold entry_fits. by rewrite Hw, Hh.
Qed.

Lemma commit_paste_fits s s' ok :
  commit_paste s = Ok (s', ok) → history_fits s → history_fits s'.
Proof.
  unfold commit_paste. intros H Hfits.
  destruct (paste_mode s); [|by simplify_eq].
  destruct (clipboard_data s) as [[|d data]|]; try by simplify_eq.
  destruct (paste_position s) as [[px py]|]; [|by simplify_eq].
  destruct (clipboard_size (save_state s "Paste")) as [[cw ch]|]; [|done].
  cbn in H.
  destruct (for_each _ _ _) as [s1|e] eqn:Hloop; [|done].
  cbn in H. simplify_eq.
  apply (history_fits_frame s1);
    [split; [done|cbn; apply same_size_refl]|].
  eapply history_fits_frame; [|by apply (save_state_fits s "Paste")].
  eapply (for_each_rel same_frame);
    [apply same_frame_refl|apply same_frame_trans| |exact Hloop].
  intros s2 dy s3.
  apply (for_each_rel same_frame);
    [apply same_frame_refl|apply same_frame_trans|].
  intros s4 dx s5. apply paste_cell_same_frame.
Qed.

Lemma load_image_fits s pil_image : history_fits (load_image s pil_image).
Proof.
  unfold load_image, history_fits.
  destruct (pil_size pil_image) as [w h].
  by destruct (pil_mode pil_image).
Qed.

Lemma run_fits o s s' :
  run o s = Ok s' → canvas_inv s → history_fits s → history_fits s'.
Proof.
  destruct o; cbn; intros H Hinv Hfits.
  - simplify_eq. apply load_image_fits.
  - unfold mousePressEvent in H.
    destruct (image s) eqn:Himg; [|by simplify_eq].
    destruct (ev_left event); [|by simplify_eq].
    destruct (paste_mode s).
    { case_bool_decide; simplify_eq.
      apply (history_fits_frame s); [|done].
      split; [done|]. cbn. rewrite Himg. apply same_size_refl. }
    destruct (_ || _).
    { case_bool_decide; simplify_eq.
      apply (history_fits_frame s); [|done].
      split; [done|]. cbn. rewrite Himg. apply same_size_refl. }
    case_bool_decide; [|by simplify_eq].
    apply draw_pixel_same_frame in H.
    eapply history_fits_frame; [exact H|].
    eapply history_fits_frame; [|by apply (save_state_fits s "Draw")].
    split; [done|]. cbn. apply same_size_refl.
  - unfold mouseMoveEvent in H.
    destruct (image s) eqn:Himg; [|by simplify_eq].
    case_bool_decide; [done|].
    cbn in H. destruct (selecting s).
    { simplify_eq. apply (history_fits_frame s); [|done].
      split; [done|]. cbn. rewrite Himg. apply same_size_refl. }
    destruct (paste_dragging s).
    { simplify_eq. apply (history_fits_frame s); [|done].
      split; [done|]. cbn. rewrite Himg. apply same_size_refl. }
    destruct (drawing s).
    { apply draw_pixel_same_frame in H.
      eapply history_fits_frame; [exact H|].
      apply (history_fits_frame s); [|done].
      split; [done|]. cbn. rewrite Himg. apply same_size_refl. }
    simplify_eq. apply (history_fits_frame s); [|done].
    split; [done|]. cbn. rewrite Himg. apply same_size_refl.
  - simplify_eq. unfold mouseReleaseEvent.
    destruct (ev_left event); [|done].
    apply (history_fits_frame s); [|done].
    split; [done|]. cbn. apply same_size_refl.
  - apply draw_pixel_same_frame in H. by eapply history_fits_frame.
  - simplify_eq. apply (history_fits_frame s); [|done].
    split; [done|]. cbn. apply same_size_refl.
  - simplify_eq. apply (history_fits_frame s); [|done].
    split; [done|]. cbn. apply same_size_refl.
  - simplify_eq. apply (history_fits_frame s); [|done].
    split; [done|]. cbn. apply same_size_refl.
  - simplify_eq. apply (history_fits_frame s); [|done].
    unfold copy_selection.
    repeat case_match; (split; [done|]); cbn; apply same_size_refl.
  - simplify_eq. apply (history_fits_frame s); [|done].
    split; [done|]. cbn. apply same_size_refl.
  - simplify_eq. apply (history_fits_frame s); [|done].
    unfold set_edit_mode.
    repeat case_bool_decide; (split; [done|]); cbn; apply same_size_refl.
  - simplify_eq. apply (history_fits_frame s); [|done].
    unfold start_paste_mode.
    case_match; (split; [done|]); cbn; apply same_size_refl.
  - destruct (commit_paste s) as [[s1 ok]|e] eqn:Hc; [|done].
    cbn in H. simplify_eq. by eapply commit_paste_fits.
  - simplify_eq. apply (history_fits_frame s); [|done].
    split; [done|]. cbn. apply same_size_refl.
  - simplify_eq. by apply save_state_fits.
  - simplify_eq. by apply undo_fits.
  - simplify_eq. by apply redo_fits.
Qed.

Lemma reachable_fits s : reachable s → history_fits s.
Proof.
  induction 1 as [|s o s' Hs IH Hrun].
  - by unfold history_fits.
  - eapply run_fits; [exact Hrun|by apply reachable_canvas_inv|exact IH].
Qed.

Lemma stroke_session_reachable : reachable (session stroke_session).
Proof. eapply session_reachable. vm_compute. reflexivity. Qed.

(** With fitting entries [undo] takes the restoring branch. *)
Lemma undo_fitting s rest pixel_data description w h :
  history_fits s →
  undo_stack s = rest ++ [(pixel_data, description, w, h)] →
  ∃ img,
    image s = Some img
    ∧ undo s
      = (with_image
           (Some (restore img (img_width img) (img_height img) pixel_data))
           (with_undo_stack rest
              (with_redo_stack (redo_stack s ++ [entry "Current" img]) s)),
         true).
Proof.
  unfold history_fits. intros Hfits Hstack.
  destruct (image s) as [img|] eqn:Himg.
  - exists img. split; [done|].
    destruct Hfits as [Hu _]. rewrite Hstack in Hu.
    apply Forall_app in Hu as [_ Hlast].
    apply Forall_inv in Hlast. destruct Hlast as [Hw Hh].
    cbn in Hw, Hh. subst w h.
    unfold undo. rewrite Himg, Hstack, pop_snoc. cbn.
    by rewrite bool_decide_eq_true_2.
  - destruct Hfits as [Hnil _]. rewrite Hnil in Hstack.
    by destruct rest.
Qed.

Lemma redo_fitting s rest pixel_data description w h :
  history_fits s →
  redo_stack s = rest ++ [(pixel_data, description, w, h)] →
  ∃ img,
    image s = Some img
    ∧ redo s
      = (with_image
           (Some (restore img (img_width img) (img_height img) pixel_data))
           (with_redo_stack rest
              (with_undo_stack (undo_stack s ++ [entry "Current" img]) s)),
         true).
Proof.
  unfold history_fits. intros Hfits Hstack.
  destruct (image s) as [img|] eqn:Himg.
  - exists img. split; [done|].
    destruct Hfits as [_ Hr]. rewrite Hstack in Hr.
    apply Forall_app in Hr as [_ Hlast].
    apply Forall_inv in Hlast. destruct Hlast as [Hw Hh].
    cbn in Hw, Hh. subst w h.
    unfold redo. rewrite Himg, Hstack, pop_snoc. cbn.
    by rewrite bool_decide_eq_true_2.
  - destruct Hfits as [_ Hnil]. rewrite Hnil in Hstack.
    by destruct rest.
Qed.

Lemma undo_empty s : undo_stack s = [] → undo s = (s, false).
Proof. intros Hnil. unfold undo. rewrite Hnil. by destruct (image s). Qed.

Lemma redo_empty s : redo_stack s = [] → redo s = (s, false).
Proof. intros Hnil. unfold redo. rewrite Hnil. by destruct (image s). Qed.

Lemma snoc_or_nil {A} (l : list A) : l = [] ∨ ∃ rest a, l = rest ++ [a].
Proof.
  destruct (pop l) as [[rest a]|] eqn:Hpop.
  - right. exists rest, a. by apply pop_Some.
  - left. by apply pop_None.
Qed.

(** X3: while every entry on the two stacks has the size of the
    current buffer, [undo] answers exactly what [can_undo] answers and
    [redo] what [can_redo] answers: the dimension test of lines 472 and
    500 is the only way to fail with something on the stack. *)
Theorem undo_answers_can_undo s :
  history_fits s →
  (undo s).2 = can_undo s ∧ (redo s).2 = can_redo s.
Proof.
  intros Hfits.
  split.
  - unfold can_undo.
    destruct (snoc_or_nil (undo_stack s))
      as [Hnil|(rest & [[[pd d] w] h] & Hstack)].
    + by rewrite (undo_empty s Hnil), Hnil.
    + destruct (undo_fitting s rest pd d w h Hfits Hstack) as (? & _ & ->).
      rewrite Hstack, length_app. cbn.
      symmetry. apply bool_decide_eq_true_2. lia.
  - unfold can_redo.
    destruct (snoc_or_nil (redo_stack s))
      as [Hnil|(rest & [[[pd d] w] h] & Hstack)].
    + by rewrite (redo_empty s Hnil), Hnil.
    + destruct (redo_fitting s rest pd d w h Hfits Hstack) as (? & _ & ->).
      rewrite Hstack, length_app. cbn.
      symmetry. apply bool_decide_eq_true_2. lia.
Qed.

Lemma undo_answers_can_undo_witness :
  (undo (session stroke_session)).2 = true
  ∧ (redo (session stroke_session)).2 = false.
Proof.
  apply (undo_answers_can_undo (session stroke_session)).
  exact (reachable_fits _ stroke_session_reachable).
Defined.

(** X4: while every entry on the two stacks has the size of the
    current buffer, neither [undo_action] nor [redo_action] opens its
    "state mismatch" message box. *)
Theorem mismatch_dialog_needs_misfit s :
  history_fits s →
  (MonkeyIslandFontEditor.undo_action s).2 = None
  ∧ (MonkeyIslandFontEditor.redo_action s).2 = None.
Proof.
  intros Hfits.
  split.
  - unfold MonkeyIslandFontEditor.undo_action.
    destruct (snoc_or_nil (undo_stack s))
      as [Hnil|(rest & [[[pd d] w] h] & Hstack)].
    + rewrite (undo_empty s Hnil). unfold can_undo. by rewrite Hnil.
    + by destruct (undo_fitting s rest pd d w h Hfits Hstack)
        as (? & _ & ->).
  - unfold MonkeyIslandFontEditor.redo_action.
    destruct (snoc_or_nil (redo_stack s))
      as [Hnil|(rest & [[[pd d] w] h] & Hstack)].
    + rewrite (redo_empty s Hnil). unfold can_redo. by rewrite Hnil.
    + by destruct (redo_fitting s rest pd d w h Hfits Hstack)
        as (? & _ & ->).
Qed.

Lemma mismatch_dialog_needs_misfit_witness :
  (MonkeyIslandFontEditor.undo_action (session stroke_session)).2 = None
  ∧ (MonkeyIslandFontEditor.redo_action (session stroke_session)).2 = None.
Proof.
  apply (mismatch_dialog_needs_misfit (session stroke_session)).
  exact (reachable_fits _ stroke_session_reachable).
Defined.

(** X5: on a well-formed buffer whose history entries all have its
    size, with something to undo, [undo] followed by [redo] both succeed
    and give back the same buffer, the same redo stack and an undo stack
    of the same length. *)
Theorem redo_after_undo s :
  history_fits s →
  (∀ img, image s = Some img → wf_image img) →
  undo_stack s ≠ [] →
  let s1 := (undo s).1 in
  let s2 := (redo s1).1 in
  (undo s).2 = true
  ∧ (redo s1).2 = true
  ∧ image s2 = image s
  ∧ redo_stack s2 = redo_stack s
  ∧ length (undo_stack s2) = length (undo_stack s).
Proof.
  intros Hfits Hwf Hne s1 s2.
  destruct (snoc_or_nil (undo_stack s))
    as [Hnil|(rest & [[[pd d] w] h] & Hstack)]; [done|].
  destruct (undo_fitting s rest pd d w h Hfits Hstack)
    as (img & Himg & Hundo).
  destruct (restore_spec img pd) as (Hwf1 & Hw1 & Hh1 & _); [by apply Hwf|].
  set (prev := restore img (img_width img) (img_height img) pd) in *.
  assert (redo (undo s).1
          = (with_image (Some img)
               (with_redo_stack (redo_stack s)
                  (with_undo_stack (rest ++ [entry "Current" prev])
                     (undo s).1)),
             true)) as Hredo.
  { rewrite Hundo. cbn [fst]. unfold redo. cbn. unfold entry at 1.
    rewrite pop_snoc. cbn.
    rewrite bool_decide_eq_true_2 by (split; congruence).
    by rewrite restore_capture by (done || by apply Hwf). }
  subst s2 s1. rewrite Hredo. rewrite Hundo. cbn.
  rewrite Hstack, !length_app. by split_and!.
Qed.

Lemma redo_after_undo_witness :
  let s := session stroke_session in
  (undo s).2 = true
  ∧ (redo (undo s).1).2 = true
  ∧ image (redo (undo s).1).1 = image s
  ∧ redo_stack (redo (undo s).1).1 = redo_stack s
  ∧ length (undo_stack (redo (undo s).1).1) = length (undo_stack s).
Proof.
  apply (redo_after_undo (session stroke_session)).
  - exact (reachable_fits _ stroke_session_reachable).
  - exact (proj1 (reachable_canvas_inv _ stroke_session_reachable)).
  - vm_compute. discriminate.
Defined.

(** ** A stroke is one undo step *)

Lemma mouseMoveEvent_same_frame s event s' :
  mouseMoveEvent s event = Ok s' → same_frame s s'.
Proof.
  unfold mouseMoveEvent. intros H.
  destruct (image s) as [img|] eqn:Himg;
    [|simplify_eq; apply same_frame_refl].
  case_bool_decide; [done|]. cbn in H.
  assert (∀ s1, same_history s s1 → image s1 = image s → same_frame s s1)
    as Hframe.
  { intros s1 ? Hi. split; [done|]. rewrite Hi. apply same_size_refl. }
  destruct (selecting s); [simplify_eq; by apply Hframe|].
  destruct (paste_dragging s); [simplify_eq; by apply Hframe|].
  destruct (drawing s); [|simplify_eq; by apply Hframe].
  apply draw_pixel_same_frame in H.
  eapply same_frame_trans; [|exact H]. by apply Hframe.
Qed.

Lemma mouse_moves_spec moves : ∀ s s',
  for_each moves mouseMoveEvent s = Ok s' →
  canvas_inv s → canvas_inv s' ∧ same_frame s s'.
Proof.
  induction moves as [|e moves IH]; intros s s' H Hinv; simpl in H.
  - injection H as <-. split; [done|apply same_frame_refl].
  - destruct (mouseMoveEvent s e) as [s1|] eqn:He; [|done].
    destruct (IH s1 s' H) as [Hinv' Hframe];
      [by eapply mouseMoveEvent_inv|].
    split; [done|].
    eapply same_frame_trans; [by eapply mouseMoveEvent_same_frame|done].
Qed.

(** X6: a stroke is one undo step.  When a left press in draw mode (no
    Shift, no paste session) on a reachable canvas with a loaded image
    is followed by any number of mouse moves, a single [undo] succeeds
    and gives back the buffer from before the press. *)
Theorem stroke_is_one_undo_step s press moves s1 s2 :
  reachable s →
  is_Some (image s) →
  ev_left press = true →
  ev_shift press = false →
  paste_mode s = false →
  edit_mode s = "draw" →
  mousePressEvent s press = Ok s1 →
  for_each moves mouseMoveEvent s1 = Ok s2 →
  (undo s2).2 = true ∧ image (undo s2).1 = image s.
Proof.
  intros Hreach [img Himg] Hleft Hshift Hmode Hedit Hpress Hmoves.
  destruct (reachable_inv s Hreach) as [Hmax _].
  pose proof (reachable_canvas_inv s Hreach) as Hinv.
  assert (canvas_inv s1) as Hinv1 by by eapply mousePressEvent_inv.
  unfold mousePressEvent in Hpress.
  rewrite Himg, Hleft, Hmode, Hedit, Hshift in Hpress. cbn in Hpress.
  destruct (save_state_pushes s img "Draw" Himg ltac:(lia))
    as [older Hstack].
  destruct (save_state_frame s "Draw") as (Hi0 & _).
  apply draw_pixel_same_frame in Hpress.
  destruct (mouse_moves_spec moves s1 s2 Hmoves Hinv1) as [Hinv2 Hframe].
  pose proof (same_frame_trans _ _ _ Hpress Hframe)
    as [(Hu & _ & _) Hsize].
  cbn in Hu, Hsize. rewrite Hi0, Himg in Hsize. rewrite Hstack in Hu.
  destruct (image s2) as [img2|] eqn:Himg2; [|done].
  destruct Hsize as [Hw Hh].
  assert (wf_image img) as Hwf by by apply Hinv.
  assert (wf_image img2) as Hwf2 by by apply Hinv2.
  unfold undo. rewrite Himg2, Hu. unfold entry. rewrite pop_snoc. cbn.
  rewrite bool_decide_eq_true_2 by done. cbn.
  split; [done|]. by rewrite restore_capture.
Qed.

Lemma stroke_is_one_undo_step_witness :
  let s2 := session [Load (strip 2 2); MousePress (left_click 5 5);
                     MouseMove (left_click 25 25)] in
  (undo s2).2 = true
  ∧ image (undo s2).1 = image (session [Load (strip 2 2)]).
Proof.
  apply (stroke_is_one_undo_step (session [Load (strip 2 2)])
           (left_click 5 5) [left_click 25 25]
           (session [Load (strip 2 2); MousePress (left_click 5 5)])).
  - eapply session_reachable. vm_compute. reflexivity.
  - eexists. vm_compute. reflexivity.
  - reflexivity.
  - reflexivity.
  - reflexivity.
  - reflexivity.
  - vm_compute. reflexivity.
  - vm_compute. reflexivity.
Defined.

(** ** The palette through a session *)

Lemma keeps_palette_refl s : keeps_palette s s.
Proof. by split. Qed.

Lemma keeps_palette_trans s1 s2 s3 :
  keeps_palette s1 s2 → keeps_palette s2 s3 → keeps_palette s1 s3.
Proof. intros [? ?] [? ?]. split; [congruence|auto]. Qed.

Lemma draw_pixel_keeps_palette s pos s' :
  draw_pixel s pos = Ok s' → keeps_palette s s'.
Proof.
  unfold draw_pixel. intros H.
  destruct (image s) eqn:Himg; [|by simplify_eq].
  case_bool_decide; [done|].
  case_bool_decide; simplify_eq; split; cbn; try done; by rewrite Himg.
Qed.

Lemma paste_cell_keeps_palette px py cw data dy s dx s' :
  paste_cell px py cw data dy s dx = Ok s' → keeps_palette s s'.
Proof.
  unfold paste_cell. intros H.
  case_bool_decide; [|by simplify_eq].
  destruct (image s) eqn:Himg; [|done].
  case_bool_decide; simplify_eq; split; cbn; try done; by rewrite Himg.
Qed.

Lemma save_state_keeps_palette s description :
  keeps_palette s (save_state s description).
Proof.
  unfold save_state. destruct (image s) eqn:Himg; [|done].
  cbn. case_bool_decide; split; cbn; try done; by rewrite Himg.
Qed.

Lemma run_keeps_palette o s s' :
  no_indexed_load o → run o s = Ok s' → keeps_palette s s'.
Proof.
  intros Hno. destruct o; cbn; intros H.
  - simplify_eq. specialize (Hno pil_image eq_refl).
    unfold load_image. rewrite Hno.
    destruct (pil_size pil_image) as [w h]. split; cbn; [done|eauto].
  - unfold mousePressEvent in H.
    destruct (image s) eqn:Himg; [|by simplify_eq].
    destruct (ev_left event); [|by simplify_eq].
    destruct (paste_mode s).
    { case_bool_decide; simplify_eq. split; cbn; [done|].
      by rewrite Himg. }
    destruct (_ || _).
    { case_bool_decide; simplify_eq. split; cbn; [done|].
      by rewrite Himg. }
    case_bool_decide; [|by simplify_eq].
    apply draw_pixel_keeps_palette in H.
    eapply keeps_palette_trans; [|exact H].
    eapply keeps_palette_trans; [apply (save_state_keeps_palette s "Draw")|].
    by split.
  - unfold mouseMoveEvent in H.
    destruct (image s) eqn:Himg; [|by simplify_eq].
    case_bool_decide; [done|]. cbn in H.
    destruct (selecting s);
      [simplify_eq; split; cbn; [done|by rewrite Himg]|].
    destruct (paste_dragging s);
      [simplify_eq; split; cbn; [done|by rewrite Himg]|].
    destruct (drawing s);
      [|simplify_eq; split; cbn; [done|by rewrite Himg]].
    apply draw_pixel_keeps_palette in H.
    eapply keeps_palette_trans; [|exact H].
    split; cbn; [done|by rewrite Himg].
  - simplify_eq. unfold mouseReleaseEvent. by destruct (ev_left event).
  - by apply draw_pixel_keeps_palette in H.
  - by simplify_eq.
  - by simplify_eq.
  - by simplify_eq.
  - simplify_eq. unfold copy_selection. by repeat case_match.
  - by simplify_eq.
  - simplify_eq. unfold set_edit_mode. by repeat case_bool_decide.
  - simplify_eq. unfold start_paste_mode. by case_match.
  - destruct (commit_paste s) as [[s1 ok]|e] eqn:Hc; [|done].
    cbn in H. simplify_eq. unfold commit_paste in Hc.
    destruct (paste_mode s); [|by simplify_eq].
    destruct (clipboard_data s) as [[|d data]|]; try by simplify_eq.
    destruct (paste_position s) as [[px py]|]; [|by simplify_eq].
    destruct (clipboard_size (save_state s "Paste")) as [[cw ch]|];
      [|done].
    cbn in Hc.
    destruct (for_each _ _ _) as [s2|e] eqn:Hloop; [|done].
    cbn in Hc. simplify_eq.
    eapply keeps_palette_trans;
      [apply (save_state_keeps_palette s "Paste")|].
    apply (keeps_palette_trans _ s2); [|by split].
    eapply (for_each_rel keeps_palette);
      [apply keeps_palette_refl|apply keeps_palette_trans| |exact Hloop].
    intros s3 dy s4.
    apply (for_each_rel keeps_palette);
      [apply keeps_palette_refl|apply keeps_palette_trans|].
    intros s5 dx s6. apply paste_cell_keeps_palette.
  - by simplify_eq.
  - simplify_eq. apply save_state_keeps_palette.
  - simplify_eq. unfold undo.
    destruct (image s) eqn:Himg; [|done].
    destruct (pop (undo_stack s)) as [[rest [[[pd d] w] h]]|]; [|done].
    case_bool_decide; split; cbn; try done; by rewrite Himg.
  - simplify_eq. unfold redo.
    destruct (image s) eqn:Himg; [|done].
    destruct (pop (redo_stack s)) as [[rest [[[pd d] w] h]]|]; [|done].
    case_bool_decide; split; cbn; try done; by rewrite Himg.
Qed.

Lemma run_all_keeps_palette ops : ∀ s s',
  Forall no_indexed_load ops → run_all ops s = Ok s' → keeps_palette s s'.
Proof.
  induction ops as [|o ops IH]; intros s s' Hall Hrun.
  - injection Hrun as <-. apply keeps_palette_refl.
  - unfold run_all in Hrun. simpl in Hrun.
    destruct (run o s) as [s1|e] eqn:Ho; [|done].
    apply Forall_cons in Hall as [Ho' Hall].
    eapply keeps_palette_trans; [by eapply run_keeps_palette|].
    by apply IH.
Qed.

(** X7: the palette survives any editing session.  After loading an
    indexed image, whatever is done next short of loading another
    indexed image (strokes, copies, pastes, undos, redos, zooming, even
    loading a true-colour picture), [save_image] succeeds and hands PIL
    the palette of that indexed image, unchanged. *)
Theorem palette_survives_session s x ops s' :
  pil_mode x = ModeP →
  pil_palette x ≠ [] →
  Forall no_indexed_load ops →
  run_all ops (load_image s x) = Ok s' →
  ∃ out, save_image s' = (true, Some out)
         ∧ pil_palette out = pil_palette x.
Proof.
  intros Hmode Hpal Hall Hrun.
  destruct (run_all_keeps_palette ops _ _ Hall Hrun) as [Hp Hi].
  assert (original_palette (load_image s x) = Some (pil_palette x)
          ∧ is_Some (image (load_image s x))) as [Hp0 Hi0].
  { unfold load_image. rewrite Hmode. destruct (pil_size x) as [w h].
    cbn. eauto. }
  destruct (Hi Hi0) as [img Himg].
  unfold save_image. rewrite Himg, Hp, Hp0.
  destruct (pil_palette x) as [|p palette]; [done|].
  by eexists.
Qed.

Lemma palette_survives_session_witness :
  ∃ out,
    save_image
      (session [Load (strip 2 2); MousePress (left_click 5 5);
                Load (rgb_picture 3 3); Undo])
    = (true, Some out)
    ∧ pil_palette out = pil_palette (strip 2 2).
Proof.
  apply (palette_survives_session init (strip 2 2)
           [MousePress (left_click 5 5); Load (rgb_picture 3 3); Undo]).
  - reflexivity.
  - vm_compute. discriminate.
  - repeat constructor; intros pil_image Heq; try discriminate Heq.
    by injection Heq as <-.
  - vm_compute. reflexivity.
Defined.

(** X8: before the first indexed image is loaded nothing can be saved:
    a true-colour picture leaves [original_palette] unset, and
    [save_image] answers [False] without writing. *)
Theorem no_save_before_indexed_load ops s' :
  Forall no_indexed_load ops →
  run_all ops init = Ok s' →
  save_image s' = (false, None).
Proof.
  intros Hall Hrun.
  destruct (run_all_keeps_palette ops _ _ Hall Hrun) as [Hp _].
  unfold save_image. rewrite Hp. cbn. by destruct (image s').
Qed.

Lemma no_save_before_indexed_load_witness :
  save_image (session [Load (rgb_picture 3 3); MousePress (left_click 5 5)])
  = (false, None).
Proof.
  apply (no_save_before_indexed_load
           [Load (rgb_picture 3 3); MousePress (left_click 5 5)]).
  - repeat constructor; intros pil_image Heq; try discriminate Heq.
    by injection Heq as <-.
  - vm_compute. reflexivity.
Defined.

(** ** Loading and saving the pixels *)

(** The effect of the copying loop of [load_image], pixel by pixel. *)
Lemma copy_pixel_data_spec img pixel_data :
  wf_image img →
  let img' :=
    copy_pixel_data img (img_width img) (img_height img) pixel_data in
  wf_image img'
  ∧ img_width img' = img_width img
  ∧ img_height img' = img_height img
  ∧ ∀ x y, valid img x y = true →
      pixelIndex img' x y
      = if bool_decide (y * img_width img + x
                        < Z.of_nat (length pixel_data))
        then pixel_data !!! offset img x y
        else pixelIndex img x y.
Proof.
  intros Hwf img'. subst img'. unfold copy_pixel_data.
  pose proof Hwf as (Hw0 & Hh0 & _).
  set (w := img_width img). set (h := img_height img).
  pose (R := λ (region : Z → Z → Prop) (im : QImage),
    wf_image im ∧ img_width im = w ∧ img_height im = h
    ∧ ∀ x' y', valid img x' y' = true →
        (region x' y' ∧ y' * w + x' < Z.of_nat (length pixel_data) →
         pixelIndex im x' y' = pixel_data !!! offset img x' y')
        ∧ (¬ (region x' y'
              ∧ y' * w + x' < Z.of_nat (length pixel_data)) →
           pixelIndex im x' y' = pixelIndex img x' y')).
  assert (∀ (A B : Z → Z → Prop) im,
            (∀ x' y', valid img x' y' = true → A x' y' ↔ B x' y') →
            R A im → R B im) as Hweaken.
  { intros A B im Hiff (? & ? & ? & Hpix). split_and!; [done..|].
    intros x' y' Hv. destruct (Hpix x' y' Hv) as [Hin Hout].
    specialize (Hiff x' y' Hv).
    split; intros ?; [apply Hin|apply Hout]; tauto. }
  cut (R (λ _ y', y' < Z.max 0 h)
         (foldl (λ im y,
            foldl (λ im x,
              let idx := y * w + x in
              if bool_decide (idx < Z.of_nat (length pixel_data))
              then setPixel im x y (pixel_data !!! Z.to_nat idx)
              else im) im (range 0 w)) img (range 0 h))).
  { intros (? & ? & ? & Hpix). split_and!; [done..|].
    intros x y Hv. destruct (Hpix x y Hv) as [Hin Hout].
    apply bool_decide_eq_true_1 in Hv. fold w h in Hv.
    case_bool_decide; [apply Hin|apply Hout]; lia. }
  apply (foldl_range_inv (λ y, R (λ _ y', y' < y))).
  { split_and!; [done..|]. intros x' y' Hv.
    apply bool_decide_eq_true_1 in Hv. split; [lia|done]. }
  intros y im Hy HR.
  cut (R (λ x' y', y' < y ∨ (y' = y ∧ x' < Z.max 0 w))
         (foldl (λ im x,
            let idx := y * w + x in
            if bool_decide (idx < Z.of_nat (length pixel_data))
            then setPixel im x y (pixel_data !!! Z.to_nat idx)
            else im) im (range 0 w))).
  { apply Hweaken. intros x' y' Hv. apply bool_decide_eq_true_1 in Hv.
    fold w h in Hv. lia. }
  apply (foldl_range_inv (λ x, R (λ x' y', y' < y ∨ (y' = y ∧ x' < x)))).
  { revert HR. apply Hweaken. intros x' y' Hv.
    apply bool_decide_eq_true_1 in Hv. lia. }
  clear im HR. intros x im Hx (Hwf' & Hw' & Hh' & Hpix). cbn.
  case_bool_decide as Hlen.
  - unfold R. rewrite setPixel_width, setPixel_height.
    split_and!; [by apply setPixel_wf|done..|].
    intros x' y' Hv. destruct (Hpix x' y' Hv) as [Hin Hout].
    rewrite pixelIndex_setPixel;
      [|done|by rewrite (valid_same_size im img)].
    case_bool_decide as Heq.
    + destruct Heq as [-> ->]. split; [|lia].
      intros _. unfold offset. by fold w.
    + split; intros ?; [apply Hin|apply Hout]; lia.
  - split_and!; [done..|].
    intros x' y' Hv. destruct (Hpix x' y' Hv) as [Hin Hout].
    split; intros Hc.
    + apply Hin.
      destruct (decide (y' = y ∧ x' = x)) as [[-> ->]|?]; lia.
    + apply Hout. lia.
Qed.

(** What [load_image] leaves in the buffer. *)
Lemma load_image_pixels s x :
  0 < (pil_size x).1 →
  0 < (pil_size x).2 →
  Z.of_nat (length (pil_bytes x)) = (pil_size x).1 * (pil_size x).2 →
  image (load_image s x)
  = Some (mkQImage (pil_size x).1 (pil_size x).2 (pil_bytes x)).
Proof.
  unfold load_image. destruct (pil_size x) as [w h]. cbn [fst snd].
  intros Hw Hh Hlen.
  assert (new_QImage w h
          = mkQImage w h (replicate (Z.to_nat (w * h)) 0)) as Hnew.
  { unfold new_QImage. by rewrite bool_decide_eq_true_2. }
  assert (wf_image (new_QImage w h)) as Hwf by apply new_QImage_wf.
  destruct (copy_pixel_data_spec (new_QImage w h) (pil_bytes x) Hwf)
    as (Hwf' & Hw' & Hh' & Hpix).
  rewrite Hnew in *. cbn [img_width img_height] in *.
  assert (copy_pixel_data
            (mkQImage w h (replicate (Z.to_nat (w * h)) 0)) w h
            (pil_bytes x)
          = mkQImage w h (pil_bytes x)) as Hcopy.
  { apply image_ext; [done| |done..|].
    - unfold wf_image. cbn. split_and!; lia.
    - intros x' y' Hv.
      assert (valid (mkQImage w h (replicate (Z.to_nat (w * h)) 0)) x' y'
              = true) as Hv0.
      { unfold valid in *. cbn. by rewrite Hw', Hh' in Hv. }
      rewrite (Hpix x' y' Hv0).
      apply bool_decide_eq_true_1 in Hv0. cbn in Hv0.
      rewrite bool_decide_eq_true_2 by nia.
      unfold pixelIndex, valid. cbn.
      by rewrite bool_decide_eq_true_2 by lia. }
  destruct (pil_mode x); cbn; by rewrite Hcopy.
Qed.

(** X9: [save_image] right after [load_image] hands PIL the image it
    was given: for an indexed source with a non-empty palette, a
    non-empty size and as many bytes as pixels, mode, palette, size and
    pixel bytes all come back unchanged. *)
Theorem save_load_round_trip s x :
  pil_mode x = ModeP →
  pil_palette x ≠ [] →
  0 < (pil_size x).1 →
  0 < (pil_size x).2 →
  Z.of_nat (length (pil_bytes x)) = (pil_size x).1 * (pil_size x).2 →
  save_image (load_image s x) = (true, Some x).
Proof.
  intros Hmode Hpal Hw Hh Hlen.
  pose proof (load_image_pixels s x Hw Hh Hlen) as Himg.
  assert (original_palette (load_image s x) = Some (pil_palette x)) as Hp.
  { unfold load_image. rewrite Hmode. by destruct (pil_size x). }
  unfold save_image. rewrite Himg, Hp.
  destruct x as [mode palette [w h] bytes]. cbn in *. subst mode.
  destruct palette as [|p palette]; [done|].
  rewrite capture_bits; [done|].
  unfold wf_image. cbn. split_and!; lia.
Qed.

Lemma save_load_round_trip_witness :
  save_image (load_image init (mkPilImage ModeP [255; 0; 255] (2, 1) [1; 0]))
  = (true, Some (mkPilImage ModeP [255; 0; 255] (2, 1) [1; 0])).
Proof.
  apply (save_load_round_trip init
           (mkPilImage ModeP [255; 0; 255] (2, 1) [1; 0])).
  - reflexivity.
  - discriminate.
  - reflexivity.
  - reflexivity.
  - reflexivity.
Defined.

(** ** Copy, then paste *)

(** X10: paste reproduces what copy took.  On a loaded image with its
    colour table installed and a buffer of palette indices, copying the
    selection, starting a paste, clicking to place the overlay and
    committing writes, at every in-bounds destination of the overlay,
    the pixel copied from the matching place of the selection rectangle
    (0 where that place was outside the buffer); all other pixels keep
    their value, and when the overlay is placed on the origin of the
    selection the whole buffer is unchanged. *)
Theorem paste_reproduces_copy s img start end_ press s3 :
  image s = Some img →
  wf_image img →
  accepted s 0 →
  Forall (accepted s) (img_bits img) →
  selection_start s = Some start →
  selection_end s = Some end_ →
  ev_left press = true →
  mousePressEvent (start_paste_mode (copy_selection s).1).1 press = Ok s3 →
  let x1 := Z.min start.1 end_.1 in
  let y1 := Z.min start.2 end_.2 in
  let width := Z.max start.1 end_.1 - x1 + 1 in
  let height := Z.max start.2 end_.2 - y1 + 1 in
  let px := (ev_pos press).1 / zoom_level s in
  let py := (ev_pos press).2 / zoom_level s in
  ∃ s4 img',
    commit_paste s3 = Ok (s4, true)
    ∧ image s4 = Some img'
    ∧ paste_mode s4 = false
    ∧ (∀ dx dy,
         0 ≤ dx < width → 0 ≤ dy < height →
         valid img (px + dx) (py + dy) = true →
         pixelIndex img' (px + dx) (py + dy)
         = if valid img (x1 + dx) (y1 + dy)
           then pixelIndex img (x1 + dx) (y1 + dy)
           else 0)
    ∧ (∀ x y,
         valid img x y = true →
         ¬ (px ≤ x < px + width ∧ py ≤ y < py + height) →
         pixelIndex img' x y = pixelIndex img x y)
    ∧ (px = x1 → py = y1 → img' = img).
Proof.
  intros Himg Hwf _ _ Hstart Hend Hleft Hpress x1 y1 width height px py.
  destruct (copy_selection_spec s img start end_ Himg Hstart Hend)
    as (data & Hcopy & Hlen & Hlook).
  fold x1 y1 width height in Hcopy, Hlen, Hlook.
  rewrite Hcopy in Hpress. cbn [fst] in Hpress.
  assert (data ≠ []) as Hne.
  { intros ->. cbn in Hlen. subst width height. nia. }
  destruct data as [|d data]; [done|].
  unfold start_paste_mode in Hpress. cbn in Hpress.
  unfold mousePressEvent in Hpress. cbn in Hpress.
  rewrite Himg, Hleft in Hpress.
  case_bool_decide as Hzoom; [done|].
  injection Hpress as <-. fold px py.
  match goal with |- ∃ _ _, commit_paste ?st = _ ∧ _ =>
    destruct (commit_paste_loaded st img (d :: data) px py width height)
      as (img' & Hrun & Hwf' & Hw & Hh & Hin & Hout);
      [done|done|done|done|done|done|done|lia|]
  end.
  eexists _, img'. split; [exact Hrun|].
  assert (∀ dx dy,
            0 ≤ dx < width → 0 ≤ dy < height →
            valid img (px + dx) (py + dy) = true →
            pixelIndex img' (px + dx) (py + dy)
            = if valid img (x1 + dx) (y1 + dy)
              then pixelIndex img (x1 + dx) (y1 + dy)
              else 0) as Hblock.
  { intros dx dy Hdx Hdy Hv. rewrite (Hin dx dy Hdx Hdy Hv).
    apply list_lookup_total_correct. by apply Hlook. }
  split_and!; [done|done|done|done|].
  intros Hpx Hpy. apply image_ext; [done..|].
  intros x y Hv. rewrite (valid_same_size img' img) in Hv by done.
  destruct (decide (px ≤ x < px + width ∧ py ≤ y < py + height))
    as [Hin'|Hout']; [|by apply Hout].
  specialize (Hblock (x - px) (y - py)).
  replace (px + (x - px)) with x in Hblock by lia.
  replace (py + (y - py)) with y in Hblock by lia.
  rewrite Hblock; [|lia|lia|done].
  replace (x1 + (x - px)) with x by lia.
  replace (y1 + (y - py)) with y by lia.
  by rewrite Hv.
Qed.

Lemma paste_reproduces_copy_witness :
  let s := session dragging_session in
  ∃ s3 s4 img',
    mousePressEvent (start_paste_mode (copy_selection s).1).1
                    (left_click 25 25) = Ok s3
    ∧ commit_paste s3 = Ok (s4, true)
    ∧ image s4 = Some img'
    ∧ pixelIndex img' 1 1 = 1.
Proof.
  intros s.
  destruct (mousePressEvent (start_paste_mode (copy_selection s).1).1
                            (left_click 25 25)) as [s3|] eqn:Hpress;
    [|by vm_compute in Hpress].
  destruct (paste_reproduces_copy s (mkQImage 2 2 [1; 0; 0; 0])
              (0, 0) (2, 2) (left_click 25 25) s3)
    as (s4 & img' & Hrun & Himg' & _ & Hblock & _).
  - reflexivity.
  - unfold wf_image. cbn. split; [lia|]. split; [lia|]. reflexivity.
  - assert (colorCount s = 256) as Hcount by reflexivity.
    unfold accepted. rewrite Hcount. lia.
  - assert (colorCount s = 256) as Hcount by reflexivity.
    unfold accepted. rewrite Hcount. cbn. repeat constructor; lia.
  - reflexivity.
  - reflexivity.
  - reflexivity.
  - exact Hpress.
  - exists s3, s4, img'. split; [reflexivity|].
    split; [exact Hrun|]. split; [exact Himg'|].
    apply (Hblock 0 0); [cbn; lia|cbn; lia|reflexivity].
Defined.

(** ** Painting what is clicked *)



(** ** Character bands *)

(** X12: with a positive character height the bands painted over the
    strip are exactly the characters [jump_to_character] accepts; each
    band lies inside the buffer, starts on screen where the previous
    one ends, and is highlighted exactly when it is band number
    [hover_y // char_height]. *)
Theorem char_bands_spec s img :
  image s = Some img →
  0 < char_height s →
  (∀ char_idx,
     jump_to_character s char_idx = Ok (Some char_idx)
     ↔ ∃ y_start y_end hovered,
         (char_idx, y_start, y_end, hovered) ∈ char_bands s)
  ∧ (∀ char_idx y_start y_end hovered,
       (char_idx, y_start, y_end, hovered) ∈ char_bands s →
       0 ≤ char_idx * char_height s
       ∧ (char_idx + 1) * char_height s ≤ img_height img
       ∧ y_start = char_idx * char_height s * zoom_level s
       ∧ y_end = y_start + char_height s * zoom_level s
       ∧ (hovered = true ↔ char_idx = hover_y s `div` char_height s)).
Proof.
  intros Himg Hch.
  assert (∀ char_idx y_start y_end hovered,
            (char_idx, y_start, y_end, hovered) ∈ char_bands s
            ↔ (0 ≤ char_idx < img_height img `div` char_height s)
              ∧ y_start = char_idx * char_height s * zoom_level s
              ∧ y_end = (char_idx + 1) * char_height s * zoom_level s
              ∧ hovered = is_hovered s char_idx) as Hmem.
  { intros char_idx y_start y_end hovered. unfold char_bands.
    rewrite Himg, bool_decide_eq_true_2 by lia.
    rewrite list_elem_of_fmap. unfold range. split.
    - intros (i & Heq & Hi). apply elem_of_seqZ in Hi.
      injection Heq as -> -> -> ->. split_and!; [lia|lia|done..].
    - intros (Hi & -> & -> & ->). exists char_idx. split; [done|].
      apply elem_of_seqZ. lia. }
  split.
  - intros char_idx. unfold jump_to_character. rewrite Himg. split.
    + intros Hjump. eexists _, _, _. apply Hmem.
      split; [|done].
      case_bool_decide; [|done].
      case_bool_decide; [done|].
      case_bool_decide; [lia|done].
    + intros (y_start & y_end & hovered & Hin).
      apply Hmem in Hin as [Hi _].
      rewrite bool_decide_eq_true_2 by lia.
      rewrite bool_decide_eq_false_2 by lia.
      by rewrite bool_decide_eq_true_2 by lia.
  - intros char_idx y_start y_end hovered Hin.
    apply Hmem in Hin as (Hi & -> & -> & ->).
    assert ((char_idx + 1) * char_height s ≤ img_height img) as Hup.
    { pose proof (Z.mul_div_le (img_height img) (char_height s) Hch).
      nia. }
    split_and!; [nia|done|done|lia|].
    unfold is_hovered. rewrite bool_decide_eq_true. split.
    + intros [Hlo Hhi].
      apply (Z.div_unique_pos _ _ _
               (hover_y s - char_idx * char_height s)); lia.
    + intros ->.
      pose proof (Z.mul_div_le (hover_y s) (char_height s) Hch).
      pose proof (Z.mul_succ_div_gt (hover_y s) (char_height s) Hch).
      lia.
Qed.

Lemma char_bands_spec_witness :
  let s := with_hover_y 9 (session [Load (strip 4 24)]) in
  jump_to_character s 2 = Ok (Some 2)
  ∧ (1, 160, 320, true) ∈ char_bands s.
Proof.
  intros s.
  destruct (char_bands_spec s (mkQImage 4 24 (replicate 96 0)))
    as [Hjump Hband].
  - reflexivity.
  - reflexivity.
  - split.
    + apply Hjump. exists 320, 480, false. vm_compute.
      do 2 constructor. constructor.
    + vm_compute. constructor. constructor.
Defined.

Lemma load_image_size s x :
  0 < (pil_size x).1 →
  0 < (pil_size x).2 →
  ∃ img, image (load_image s x) = Some img
         ∧ img_width img = (pil_size x).1
         ∧ img_height img = (pil_size x).2.
Proof.
  unfold load_image. destruct (pil_size x) as [w h]. cbn [fst snd].
  intros Hw Hh.
  assert (new_QImage w h
          = mkQImage w h (replicate (Z.to_nat (w * h)) 0)) as Hnew.
  { unfold new_QImage. by rewrite bool_decide_eq_true_2. }
  destruct (copy_pixel_data_spec (new_QImage w h) (pil_bytes x)
              (new_QImage_wf w h)) as (_ & Hw' & Hh' & _).
  rewrite Hnew in *. cbn [img_width img_height] in *.
  destruct (pil_mode x); cbn; by eexists.
Qed.

(** X13: how many characters a freshly loaded strip offers.  After a
    load of a non-empty image the character height is at least 1, so
    [jump_to_character] never raises and accepts exactly the indices
    below [height // char_height]; a strip of 256 rows or more offers
    at least 256 characters, except for the two table heights 2259 and
    3390, which offer 251 and 226. *)
Theorem loaded_strip_characters s x :
  let height := (pil_size x).2 in
  let s' := load_image s x in
  let num_chars := height `div` char_height s' in
  0 < (pil_size x).1 →
  0 < height →
  1 ≤ char_height s'
  ∧ (∀ char_index,
       jump_to_character s' char_index
       = Ok (if bool_decide (0 ≤ char_index < num_chars)
             then Some char_index else None))
  ∧ (256 ≤ height → height ≠ 2259 → height ≠ 3390 → 256 ≤ num_chars)
  ∧ (height = 2259 → num_chars = 251)
  ∧ (height = 3390 → num_chars = 226).
Proof.
  intros height s' num_chars Hw Hh.
  destruct (load_image_size s x Hw Hh) as (img & Himg & _ & Hih).
  fold height in Hih. fold s' in Himg.
  assert (char_height s' = detect_char_height height) as Hc
    by apply load_image_char_height.
  subst num_chars. rewrite !Hc.
  assert (1 ≤ detect_char_height height) as Hch.
  { unfold detect_char_height. repeat case_bool_decide; lia. }
  split_and!.
  - done.
  - intros char_index. unfold jump_to_character. rewrite Himg, Hih, Hc.
    case_bool_decide as H0.
    + rewrite bool_decide_eq_false_2 by lia.
      case_bool_decide; [by rewrite bool_decide_eq_true_2|].
      rewrite bool_decide_eq_false_2; [done|]. lia.
    + rewrite bool_decide_eq_false_2; [done|]. lia.
  - intros H256 H1 H2. unfold detect_char_height.
    case_bool_decide as E1; [rewrite E1; by vm_compute|].
    case_bool_decide; [done|].
    case_bool_decide; [done|].
    case_bool_decide as E4; [rewrite E4; by vm_compute|].
    assert (1 ≤ height `div` 256)
      by (apply Z.div_le_lower_bound; lia).
    rewrite bool_decide_eq_false_2 by lia.
    apply Z.div_le_lower_bound; [lia|].
    pose proof (Z.mul_div_le height 256 ltac:(lia)). lia.
  - intros E. by rewrite E.
  - intros E. by rewrite E.
Qed.

Lemma loaded_strip_characters_witness :
  let s' := load_image init (strip 8 2600) in
  1 ≤ char_height s'
  ∧ jump_to_character s' 255 = Ok (Some 255)
  ∧ jump_to_character s' 260 = Ok None
  ∧ 256 ≤ 2600 `div` char_height s'.
Proof.
  destruct (loaded_strip_characters init (strip 8 2600))
    as (Hch & Hjump & Hmany & _).
  - reflexivity.
  - reflexivity.
  - split; [exact Hch|]. split; [apply (Hjump 255)|].
    split; [apply (Hjump 260)|].
    apply Hmany; [cbn; lia|cbn; lia|cbn; lia].
Defined.

(** ** No division by zero *)

Lemma same_settings_refl s : same_settings s s.
Proof. by split. Qed.

Lemma same_settings_trans s1 s2 s3 :
  same_settings s1 s2 → same_settings s2 s3 → same_settings s1 s3.
Proof. intros [? ?] [? ?]. split; congruence. Qed.

Lemma draw_pixel_same_settings s pos s' :
  draw_pixel s pos = Ok s' → same_settings s s'.
Proof.
  unfold draw_pixel. intros H.
  repeat (case_match; simplify_eq); done.
Qed.

Lemma paste_cell_same_settings px py cw data dy s dx s' :
  paste_cell px py cw data dy s dx = Ok s' → same_settings s s'.
Proof.
  unfold paste_cell. intros H.
  repeat (case_match; simplify_eq); done.
Qed.

Lemma save_state_same_settings s description :
  same_settings s (save_state s description).
Proof.
  unfold save_state. destruct (image s); [|done].
  cbn. by case_bool_decide.
Qed.

Lemma run_settings o s s' :
  run o s = Ok s' →
  zoom_level s' = match o with
                  | SetZoom zoom => zoom
                  | _ => zoom_level s
                  end
  ∧ char_height s' = match o with
                     | SetCharHeight height => height
                     | Load pil_image =>
                       detect_char_height (pil_size pil_image).2
                     | _ => char_height s
                     end.
Proof.
  destruct o; cbn; intros H.
  - simplify_eq. rewrite load_image_char_height. split; [|done].
    unfold load_image. destruct (pil_size pil_image).
    by destruct (pil_mode pil_image).
  - unfold mousePressEvent in H.
    destruct (image s); [|by simplify_eq].
    destruct (ev_left event); [|by simplify_eq].
    destruct (paste_mode s); [by case_bool_decide; simplify_eq|].
    destruct (_ || _); [by case_bool_decide; simplify_eq|].
    case_bool_decide; [|by simplify_eq].
    apply draw_pixel_same_settings in H as [Hz Hc]. cbn in Hz, Hc.
    destruct (save_state_same_settings s "Draw"). split; congruence.
  - unfold mouseMoveEvent in H.
    destruct (image s); [|by simplify_eq].
    case_bool_decide; [done|]. cbn in H.
    destruct (selecting s); [by simplify_eq|].
    destruct (paste_dragging s); [by simplify_eq|].
    destruct (drawing s); [|by simplify_eq].
    by apply draw_pixel_same_settings in H.
  - simplify_eq. unfold mouseReleaseEvent. by destruct (ev_left event).
  - by apply draw_pixel_same_settings in H.
  - by simplify_eq.
  - by simplify_eq.
  - by simplify_eq.
  - simplify_eq. unfold copy_selection. by repeat case_match.
  - by simplify_eq.
  - simplify_eq. unfold set_edit_mode. by repeat case_bool_decide.
  - simplify_eq. unfold start_paste_mode. by case_match.
  - destruct (commit_paste s) as [[s1 ok]|e] eqn:Hc; [|done].
    cbn in H. simplify_eq. unfold commit_paste in Hc.
    destruct (paste_mode s); [|by simplify_eq].
    destruct (clipboard_data s) as [[|d data]|]; try by simplify_eq.
    destruct (paste_position s) as [[px py]|]; [|by simplify_eq].
    destruct (clipboard_size (save_state s "Paste")) as [[cw ch]|];
      [|done].
    cbn in Hc.
    destruct (for_each _ _ _) as [s2|e] eqn:Hloop; [|done].
    cbn in Hc. simplify_eq.
    cut (same_settings s s2); [by intros [? ?]|].
    eapply same_settings_trans;
      [apply (save_state_same_settings s "Paste")|].
    eapply (for_each_rel same_settings);
      [apply same_settings_refl|apply same_settings_trans| |exact Hloop].
    intros s3 dy s4.
    apply (for_each_rel same_settings);
      [apply same_settings_refl|apply same_settings_trans|].
    intros s5 dx s6. apply paste_cell_same_settings.
  - by simplify_eq.
  - simplify_eq. apply save_state_same_settings.
  - simplify_eq. unfold undo. by repeat case_match.
  - simplify_eq. unfold redo. by repeat case_match.
Qed.

Lemma window_reachable_reachable s : window_reachable s → reachable s.
Proof.
  induction 1 as [|s o s' _ IH _ Hrun]; [constructor|].
  by eapply reachable_step.
Qed.

Lemma window_reachable_settings s :
  window_reachable s → 5 ≤ zoom_level s ≤ 50 ∧ 1 ≤ char_height s.
Proof.
  induction 1 as [|s o s' _ [IHz IHc] Hop Hrun]; [cbn; lia|].
  destruct (run_settings o s s' Hrun) as [Hz Hc].
  rewrite Hz, Hc. destruct o; cbn in Hop; try done.
  split; [done|].
  unfold detect_char_height. repeat case_bool_decide; lia.
Qed.

Lemma draw_pixel_ok s pos :
  zoom_level s ≠ 0 → ∃ s', draw_pixel s pos = Ok s'.
Proof.
  intros Hz. unfold draw_pixel.
  destruct (image s); [|by eexists].
  rewrite bool_decide_eq_false_2 by done.
  case_bool_decide; by eexists.
Qed.

Lemma commit_paste_ok s : canvas_inv s → ∃ r, commit_paste s = Ok r.
Proof.
  intros (Hwf & _ & Hclip & _).
  destruct (paste_mode s) eqn:Hmode;
    [|unfold commit_paste; rewrite Hmode; by eexists].
  destruct (clipboard_data s) as [[|d data]|] eqn:Hdata;
    [unfold commit_paste; rewrite Hmode, Hdata; by eexists| |
     unfold commit_paste; rewrite Hmode, Hdata; by eexists].
  destruct (paste_position s) as [[px py]|] eqn:Hpos;
    [|unfold commit_paste; rewrite Hmode, Hdata, Hpos; by eexists].
  destruct (Hclip _ eq_refl)
    as [[img Himg] (cw & ch & Hsize & _ & _ & Hlen)].
  destruct (commit_paste_loaded s img (d :: data) px py cw ch)
    as (img' & Hrun & _); try done; [by apply Hwf|lia|].
  by eexists.
Qed.

(** X14: no floor division of the canvas divides by zero.
    [adjust_zoom] always leaves the zoom between 5 and 50; and in every
    state reached from a fresh canvas by operations the window can
    trigger, the zoom is in that range and the character height is at
    least 1, so neither an operation nor [jump_to_character] raises
    [ZeroDivisionError]. *)
Theorem window_never_divides_by_zero s :
  (∀ delta,
     5 ≤ zoom_level (MonkeyIslandFontEditor.adjust_zoom s delta) ≤ 50)
  ∧ (window_reachable s →
     5 ≤ zoom_level s ≤ 50
     ∧ 1 ≤ char_height s
     ∧ (∀ o, window_op o → run o s ≠ Raise ZeroDivisionError)
     ∧ (∀ char_index,
          jump_to_character s char_index ≠ Raise ZeroDivisionError)).
Proof.
  split.
  { intros delta. unfold MonkeyIslandFontEditor.adjust_zoom. cbn. lia. }
  intros Hreach.
  destruct (window_reachable_settings s Hreach) as [Hz Hc].
  pose proof (reachable_canvas_inv s (window_reachable_reachable s Hreach))
    as Hinv.
  split_and!; [lia|lia|done| |].
  - intros o Hop. destruct o; cbn; try done.
    + unfold mousePressEvent.
      destruct (image s); [|done].
      destruct (ev_left event); [|done].
      rewrite !bool_decide_eq_false_2 by lia.
      destruct (paste_mode s); [done|].
      destruct (_ || _); [done|].
      case_bool_decide; [|done].
      match goal with |- draw_pixel ?st ?pos ≠ _ =>
        destruct (draw_pixel_ok st pos) as [s' ->]; [|done]
      end.
      cbn. destruct (save_state_same_settings s "Draw") as [-> _]. lia.
    + unfold mouseMoveEvent.
      destruct (image s); [|done].
      rewrite bool_decide_eq_false_2 by lia. cbn.
      destruct (selecting s); [done|].
      destruct (paste_dragging s); [done|].
      destruct (drawing s); [|done].
      match goal with |- draw_pixel ?st ?pos ≠ _ =>
        destruct (draw_pixel_ok st pos) as [s' ->]; [|done]
      end.
      cbn. lia.
    + destruct (draw_pixel_ok s pos) as [s' ->]; [lia|done].
    + by destruct (commit_paste_ok s Hinv) as [r ->].
  - intros char_index. unfold jump_to_character.
    destruct (image s); [|done].
    case_bool_decide; [|done].
    rewrite bool_decide_eq_false_2 by lia.
    by case_bool_decide.
Qed.

Lemma window_never_divides_by_zero_witness :
  let s := session [Load (strip 2 2); SetZoom 5] in
  5 ≤ zoom_level s ≤ 50
  ∧ 1 ≤ char_height s
  ∧ run (MousePress (left_click 7 7)) s ≠ Raise ZeroDivisionError
  ∧ jump_to_character s 3 ≠ Raise ZeroDivisionError.
Proof.
  intros s.
  destruct (proj2 (window_never_divides_by_zero s))
    as (Hz & Hc & Hrun & Hjump).
  - eapply (window_reachable_step _ (SetZoom 5)); [|cbn; lia|reflexivity].
    eapply (window_reachable_step _ (Load (strip 2 2)));
      [constructor|exact I|reflexivity].
  - split; [exact Hz|]. split; [exact Hc|].
    split; [apply Hrun; exact I|apply Hjump].
Defined.

(** ** A new edit closes the redo branch *)

Lemma save_state_clears_redo s description :
  history_fits s → redo_stack (save_state s description) = [].
Proof.
  unfold history_fits, save_state.
  destruct (image s); [|intros [_ Hr]; exact Hr].
  by intros _.
Qed.

(** X15: in a reachable state every new edit closes the redo branch:
    after the press that starts a stroke, and after a committed paste,
    the redo stack is empty, [can_redo] is [False] and [redo] changes
    nothing. *)
Theorem new_edit_clears_redo s :
  reachable s →
  (∀ press s1,
     ev_left press = true → ev_shift press = false →
     paste_mode s = false → edit_mode s = "draw" →
     mousePressEvent s press = Ok s1 →
     redo_stack s1 = [] ∧ can_redo s1 = false ∧ redo s1 = (s1, false))
  ∧ (∀ s',
       commit_paste s = Ok (s', true) →
       redo_stack s' = [] ∧ can_redo s' = false ∧ redo s' = (s', false)).
Proof.
  intros Hreach. pose proof (reachable_fits s Hreach) as Hfits.
  assert (∀ s1, redo_stack s1 = [] →
            redo_stack s1 = [] ∧ can_redo s1 = false
            ∧ redo s1 = (s1, false)) as Hthen.
  { intros s1 Hnil. split; [done|]. split; [|by apply redo_empty].
    unfold can_redo. by rewrite Hnil. }
  split.
  - intros press s1 Hleft Hshift Hmode Hedit Hpress. apply Hthen.
    unfold mousePressEvent in Hpress.
    destruct (image s) eqn:Himg.
    + rewrite Hleft, Hmode, Hedit, Hshift in Hpress. cbn in Hpress.
      apply draw_pixel_same_history in Hpress as (_ & -> & _). cbn.
      by apply save_state_clears_redo.
    + simplify_eq. unfold history_fits in Hfits. rewrite Himg in Hfits.
      by destruct Hfits.
  - intros s' Hcommit. apply Hthen.
    unfold commit_paste in Hcommit.
    destruct (paste_mode s); [|by simplify_eq].
    destruct (clipboard_data s) as [[|d data]|]; try by simplify_eq.
    destruct (paste_position s) as [[px py]|]; [|by simplify_eq].
    destruct (clipboard_size (save_state s "Paste")) as [[cw ch]|];
      [|done].
    cbn in Hcommit.
    destruct (for_each _ _ _) as [s2|e] eqn:Hloop; [|done].
    cbn in Hcommit. simplify_eq. cbn.
    assert (same_history (save_state s "Paste") s2) as (_ & -> & _).
    { eapply for_each_same_history; [|exact Hloop].
      intros s3 dy s4. apply for_each_same_history.
      intros s5 dx s6. apply paste_cell_same_history. }
    by apply save_state_clears_redo.
Qed.

Lemma new_edit_clears_redo_witness :
  let s := (undo (session stroke_session)).1 in
  can_redo s = true
  ∧ ∃ s1, mousePressEvent s (left_click 5 5) = Ok s1
          ∧ redo_stack s1 = [] ∧ can_redo s1 = false
          ∧ redo s1 = (s1, false).
Proof.
  intros s. split; [reflexivity|].
  destruct (mousePressEvent s (left_click 5 5)) as [s1|] eqn:Hpress;
    [|by vm_compute in Hpress].
  exists s1. split; [reflexivity|].
  apply (proj1 (new_edit_clears_redo s
    (reachable_step _ Undo _ stroke_session_reachable eq_refl))
    (left_click 5 5) s1); [reflexivity..|exact Hpress].
Defined.

(** ** The selection is normalized on read *)

(** X16: the copy does not depend on the direction of the drag:
    exchanging the two corners of the selection gives the same answer,
    the same clipboard payload and the same clipboard size. *)
Theorem copy_ignores_drag_direction s :
  let swapped :=
    with_selection_start (selection_end s)
      (with_selection_end (selection_start s) s) in
  (copy_selection swapped).2 = (copy_selection s).2
  ∧ clipboard_data (copy_selection swapped).1
    = clipboard_data (copy_selection s).1
  ∧ clipboard_size (copy_selection swapped).1
    = clipboard_size (copy_selection s).1.
Proof.
  unfold copy_selection. cbn.
  destruct (image s) as [img|]; [|done].
  destruct (selection_start s) as [[sx sy]|],
           (selection_end s) as [[ex ey]|]; try done.
  cbn. by rewrite (Z.min_comm ex sx), (Z.min_comm ey sy),
                  (Z.max_comm ex sx), (Z.max_comm ey sy).
Qed.

(** ** The clipboard *)

Lemma keeps_clipboard_refl s : keeps_clipboard s s.
Proof. by intros ?. Qed.

Lemma keeps_clipboard_trans s1 s2 s3 :
  keeps_clipboard s1 s2 → keeps_clipboard s2 s3 → keeps_clipboard s1 s3.
Proof. unfold keeps_clipboard. auto. Qed.

Lemma draw_pixel_keeps_clipboard s pos s' :
  draw_pixel s pos = Ok s' → keeps_clipboard s s'.
Proof.
  unfold draw_pixel, keeps_clipboard. intros H.
  repeat (case_match; simplify_eq); done.
Qed.

Lemma paste_cell_keeps_clipboard px py cw data dy s dx s' :
  paste_cell px py cw data dy s dx = Ok s' → keeps_clipboard s s'.
Proof.
  unfold paste_cell, keeps_clipboard. intros H.
  repeat (case_match; simplify_eq); done.
Qed.

Lemma run_keeps_clipboard o s s' : run o s = Ok s' → keeps_clipboard s s'.
Proof.
  destruct o; cbn; intros H; unfold keeps_clipboard.
  - simplify_eq. unfold load_image. destruct (pil_size pil_image).
    by destruct (pil_mode pil_image).
  - unfold mousePressEvent in H.
    destruct (image s); [|by simplify_eq].
    destruct (ev_left event); [|by simplify_eq].
    destruct (paste_mode s); [by case_bool_decide; simplify_eq|].
    destruct (_ || _); [by case_bool_decide; simplify_eq|].
    case_bool_decide; [|by simplify_eq].
    apply draw_pixel_keeps_clipboard in H.
    eapply keeps_clipboard_trans; [|exact H].
    unfold keeps_clipboard. cbn.
    by destruct (save_state_frame s "Draw") as (_ & -> & _).
  - unfold mouseMoveEvent in H.
    destruct (image s); [|by simplify_eq].
    case_bool_decide; [done|]. cbn in H.
    destruct (selecting s); [by simplify_eq|].
    destruct (paste_dragging s); [by simplify_eq|].
    destruct (drawing s); [|by simplify_eq].
    by apply draw_pixel_keeps_clipboard in H.
  - simplify_eq. unfold mouseReleaseEvent. by destruct (ev_left event).
  - by apply draw_pixel_keeps_clipboard in H.
  - by simplify_eq.
  - by simplify_eq.
  - by simplify_eq.
  - simplify_eq. unfold copy_selection, keeps_clipboard.
    repeat case_match; cbn; eauto.
  - by simplify_eq.
  - simplify_eq. unfold set_edit_mode. by repeat case_bool_decide.
  - simplify_eq. unfold start_paste_mode. by case_match.
  - destruct (commit_paste s) as [[s1 ok]|e] eqn:Hc; [|done].
    cbn in H. simplify_eq. unfold commit_paste in Hc.
    destruct (paste_mode s); [|by simplify_eq].
    destruct (clipboard_data s) as [[|d data]|] eqn:Hdata;
      try by simplify_eq.
    destruct (paste_position s) as [[px py]|]; [|by simplify_eq].
    destruct (clipboard_size (save_state s "Paste")) as [[cw ch]|];
      [|done].
    cbn in Hc.
    destruct (for_each _ _ _) as [s2|e] eqn:Hloop; [|done].
    cbn in Hc. simplify_eq.
    cut (keeps_clipboard (save_state s "Paste") s2).
    { unfold keeps_clipboard. cbn.
      destruct (save_state_frame s "Paste") as (_ & -> & _).
      rewrite Hdata. eauto. }
    eapply (for_each_rel keeps_clipboard);
      [apply keeps_clipboard_refl|apply keeps_clipboard_trans|
       |exact Hloop].
    intros s3 dy s4.
    apply (for_each_rel keeps_clipboard);
      [apply keeps_clipboard_refl|apply keeps_clipboard_trans|].
    intros s5 dx s6. apply paste_cell_keeps_clipboard.
  - by simplify_eq.
  - simplify_eq. unfold keeps_clipboard.
    by destruct (save_state_frame s description) as (_ & -> & _).
  - simplify_eq. unfold undo. by repeat case_match.
  - simplify_eq. unfold redo. by repeat case_match.
Qed.

(** X17: the clipboard is never cleared.  No operation, not even a
    load, empties [clipboard_data] once a copy has filled it; and in a
    reachable state [start_paste_mode] succeeds exactly when a copy has
    been made, opening the session at (0,0) without touching the
    buffer or the history. *)
Theorem clipboard_is_never_cleared s :
  reachable s →
  (∀ o s', run o s = Ok s' →
     is_Some (clipboard_data s) → is_Some (clipboard_data s'))
  ∧ ((start_paste_mode s).2 = true ↔ is_Some (clipboard_data s))
  ∧ ((start_paste_mode s).2 = true →
     let s' := (start_paste_mode s).1 in
     paste_mode s' = true
     ∧ paste_position s' = Some (0, 0)
     ∧ image s' = image s
     ∧ undo_stack s' = undo_stack s
     ∧ redo_stack s' = redo_stack s
     ∧ clipboard_data s' = clipboard_data s).
Proof.
  intros Hreach.
  destruct (reachable_canvas_inv s Hreach) as (_ & _ & Hclip & _).
  split; [intros o s'; apply run_keeps_clipboard|].
  unfold start_paste_mode.
  destruct (clipboard_data s) as [[|d data]|] eqn:Hdata; cbn.
  - destruct (Hclip [] eq_refl) as (_ & cw & ch & _ & ? & ? & Hlen).
    cbn in Hlen. nia.
  - destruct (Hclip _ eq_refl) as (_ & cw & ch & -> & _).
    rewrite bool_decide_eq_true_2 by eauto. cbn.
    split; [split; eauto|]. done.
  - split; [|done]. split; [done|]. by intros [? ?].
Qed.

Lemma clipboard_is_never_cleared_witness :
  let s := session pasting_session in
  is_Some (clipboard_data (load_image s (strip 1 1)))
  ∧ (start_paste_mode s).2 = true
  ∧ paste_position (start_paste_mode s).1 = Some (0, 0).
Proof.
  intros s.
  destruct (clipboard_is_never_cleared s pasting_session_reachable)
    as (Hkeep & Hiff & Hstart).
  assert (is_Some (clipboard_data s)) as Hsome.
  { exists [1; 0; 0; 0]. vm_compute. reflexivity. }
  pose proof (proj2 Hiff Hsome) as Htrue.
  destruct (Hstart Htrue) as (_ & Hpos & _).
  split; [|split; [exact Htrue|exact Hpos]].
  exact (Hkeep (Load (strip 1 1)) (load_image s (strip 1 1)) eq_refl Hsome).
Defined.
